(** * Emergency Skill Share: dispatch and acceptance-arbitration engine

    A shallow embedding of the server side of the single-file Node
    application (registry of connections, ranker, dispatcher and the
    Socket.IO event handlers), followed by the properties of the
    engine.

    Conventions of the embedding.
    - A JavaScript [Map] is an association list in insertion order:
      iteration order is observable (ranking ties, notification order).
    - A JavaScript [Set] of strings is a duplicate-free list in
      insertion order.
    - A JavaScript number is a [num]: NaN, the two infinities, or the
      rational value a finite double denotes.  Only comparisons and the
      sign of a difference of numbers are observed by the engine, and
      on doubles these agree with the exact values.
    - [Date.now()], the random part of [uid] and the peer address are
      inputs of the event that reads them.
    - Every handler returns the new stores, the notifications emitted
      through [io.to(..).emit], and the value handed to [ack]. *)

From Stdlib Require Import List String Ascii Bool ZArith QArith Lia Lqa.
From Stdlib Require Import Permutation Sorted DecimalString Qround.
Import ListNotations.
Set Warnings "-register-all".
Local Open Scope string_scope.
Local Open Scope Z_scope.

(* ------------------------------------------------------------------ *)
(** ** JavaScript numbers *)

Inductive num : Type :=
| NaN
| NegInf
| Fin (q : Q)
| PosInf.

Module Num.

(** [a < b] *)
Definition ltb (a b : num) : bool :=
  match a, b with
  | NaN, _ | _, NaN => false
  | NegInf, NegInf => false
  | NegInf, _ => true
  | _, NegInf => false
  | PosInf, _ => false
  | Fin _, PosInf => true
  | Fin x, Fin y => negb (Qle_bool y x)
  end.

(** [a === b] on numbers *)
Definition eqb (a b : num) : bool :=
  match a, b with
  | NegInf, NegInf | PosInf, PosInf => true
  | Fin x, Fin y => Qeq_bool x y
  | _, _ => false
  end.

(** [a <= b] *)
Definition leb (a b : num) : bool := ltb a b || eqb a b.

(** [a - b] *)
Definition sub (a b : num) : num :=
  match a, b with
  | NaN, _ | _, NaN => NaN
  | PosInf, PosInf | NegInf, NegInf => NaN
  | PosInf, _ | _, NegInf => PosInf
  | NegInf, _ | _, PosInf => NegInf
  | Fin x, Fin y => Fin (x - y)
  end.

Definition isNaN (a : num) : bool :=
  match a with NaN => true | _ => false end.

(** ToBoolean on a number: NaN and zero are falsy. *)
Definition truthy (a : num) : bool :=
  match a with
  | NaN => false
  | Fin x => negb (Qeq_bool x 0)
  | _ => true
  end.

Definition ofZ (z : Z) : num := Fin (inject_Z z).

End Num.

(* ------------------------------------------------------------------ *)
(** ** Strings: [toLowerCase] and [trim] (on the ASCII range) *)

Definition lowerChar (c : ascii) : ascii :=
  let n := nat_of_ascii c in
  if (Nat.leb 65 n && Nat.leb n 90)%bool then ascii_of_nat (n + 32) else c.

Fixpoint toLowerCase (s : string) : string :=
  match s with
  | EmptyString => EmptyString
  | String c r => String (lowerChar c) (toLowerCase r)
  end.

(** TAB, LF, VT, FF, CR and SPACE *)
Definition isWhiteSpace (c : ascii) : bool :=
  let n := nat_of_ascii c in
  ((Nat.leb 9 n && Nat.leb n 13) || Nat.eqb n 32)%bool.

Fixpoint trimStart (s : string) : string :=
  match s with
  | EmptyString => EmptyString
  | String c r => if isWhiteSpace c then trimStart r else s
  end.

Fixpoint trimEnd (s : string) : string :=
  match s with
  | EmptyString => EmptyString
  | String c r =>
      match trimEnd r with
      | EmptyString =>
          if isWhiteSpace c then EmptyString else String c EmptyString
      | r' => String c r'
      end
  end.

Definition trim (s : string) : string := trimEnd (trimStart s).

Definition isEmpty (s : string) : bool :=
  match s with EmptyString => true | _ => false end.

Fixpoint join (sep : string) (l : list string) : string :=
  match l with
  | [] => ""
  | [x] => x
  | x :: r => x ++ sep ++ join sep r
  end.

(* ------------------------------------------------------------------ *)
(** ** Containers *)

Module JsMap.
Section WithValue.
Context {V : Type}.

Definition t := list (string * V).

Fixpoint get (k : string) (m : t) : option V :=
  match m with
  | [] => None
  | (k', v) :: r => if String.eqb k k' then Some v else get k r
  end.

(** [Map.prototype.set]: an existing key keeps its position. *)
Fixpoint set (k : string) (v : V) (m : t) : t :=
  match m with
  | [] => [(k, v)]
  | (k', v') :: r =>
      if String.eqb k k' then (k, v) :: r else (k', v') :: set k v r
  end.

Fixpoint delete (k : string) (m : t) : t :=
  match m with
  | [] => []
  | (k', v') :: r =>
      if String.eqb k k' then r else (k', v') :: delete k r
  end.

Definition values (m : t) : list V := map snd m.
End WithValue.
Arguments t : clear implicits.
End JsMap.

Module JsSet.
Definition t := list string.

Definition has (x : string) (s : t) : bool :=
  existsb (String.eqb x) s.

Definition add (x : string) (s : t) : t :=
  if has x s then s else (s ++ [x])%list.

(** [new Set(iterable)] *)
Definition ofList (l : list string) : t :=
  fold_left (fun s x => add x s) l [].
End JsSet.

(* ------------------------------------------------------------------ *)
(** ** JavaScript values carried by event payloads *)

Inductive jsval : Type :=
| JUndefined
| JNull
| JBool (b : bool)
| JNum (n : num)
| JStr (s : string)
| JArr (items : list jsval)
| JObj (props : list (string * jsval)).

(** [v?.k] / destructuring of [k] out of [v] *)
Definition prop (k : string) (v : jsval) : jsval :=
  match v with
  | JObj props =>
      match JsMap.get k props with
      | Some x => x
      | None => JUndefined
      end
  | _ => JUndefined
  end.

Definition truthy (v : jsval) : bool :=
  match v with
  | JUndefined | JNull => false
  | JBool b => b
  | JNum n => Num.truthy n
  | JStr s => negb (isEmpty s)
  | JArr _ | JObj _ => true
  end.

(** [a || b] *)
Definition jsOr (a b : jsval) : jsval := if truthy a then a else b.

(** [x = d] default in a destructuring pattern *)
Definition orDefault (x d : jsval) : jsval :=
  match x with JUndefined => d | _ => x end.

(** [typeof v === 'number'] *)
Definition isNumber (v : jsval) : bool :=
  match v with JNum _ => true | _ => false end.

(* ------------------------------------------------------------------ *)
(** ** The numeric runtime the engine relies on

    [haversineKm] is floating-point trigonometry ([Math.sin],
    [Math.cos], [Math.atan2], [Math.sqrt]); the engine only compares
    its result with the search radius and with other distances, so the
    function is taken as it is.  [toFixed2 d] stands for
    [Number(d.toFixed(2))]; [numberToString] and [stringToNumber] are
    the conversions behind [String(..)] and [Number(..)]. *)

Class Host : Type := {
  haversineKm : num -> num -> num -> num -> num;
  toFixed2 : num -> num;
  numberToString : num -> string;
  stringToNumber : string -> num
}.

(** [String(v)] *)
Fixpoint jsString `{Host} (v : jsval) : string :=
  match v with
  | JUndefined => "undefined"
  | JNull => "null"
  | JBool true => "true"
  | JBool false => "false"
  | JNum n => numberToString n
  | JStr s => s
  | JArr items =>
      join ","
        (map (fun x => match x with
                       | JUndefined | JNull => ""
                       | _ => jsString x
                       end) items)
  | JObj _ => "[object Object]"
  end.

(** [Number(v)] *)
Definition jsNumber `{Host} (v : jsval) : num :=
  match v with
  | JUndefined => NaN
  | JNull => Num.ofZ 0
  | JBool true => Num.ofZ 1
  | JBool false => Num.ofZ 0
  | JNum n => n
  | JStr s => stringToNumber s
  | JArr _ | JObj _ => stringToNumber (jsString v)
  end.

(* ------------------------------------------------------------------ *)
(** ** In-memory stores *)

Inductive Role : Type := helper | seeker.

Definition isHelper (r : Role) : bool :=
  match r with helper => true | seeker => false end.

Inductive Status : Type :=
| pending | dispatched | accepted | cancelled | resolved.

Definition statusEqb (a b : Status) : bool :=
  match a, b with
  | pending, pending | dispatched, dispatched | accepted, accepted
  | cancelled, cancelled | resolved, resolved => true
  | _, _ => false
  end.

(** [location] of a connection *)
Module Loc.
Record t : Type := mk { lat : num; lng : num; updatedAt : Z }.
End Loc.

(** [location] of an emergency *)
Module Pt.
Record t : Type := mk { lat : num; lng : num }.
End Pt.

Module Conn.
Record t : Type := mk {
  id : string;
  role : Role;
  name : string;
  skills : JsSet.t;
  location : option Loc.t;
  available : bool;
  rating : num
}.

Definition setAvailable (b : bool) (c : t) : t :=
  mk (id c) (role c) (name c) (skills c) (location c) b (rating c).

Definition setLocation (l : option Loc.t) (c : t) : t :=
  mk (id c) (role c) (name c) (skills c) l (available c) (rating c).
End Conn.

Module Helper.
Record t : Type := mk { socketId : string; name : string }.
End Helper.

Module Em.
Record t : Type := mk {
  id : string;
  seekerSocketId : string;
  requiredSkill : string;
  location : Pt.t;
  note : string;
  createdAt : Z;
  status : Status;
  assignedHelper : option Helper.t;
  responders : JsSet.t
}.

Definition setStatus (s : Status) (e : t) : t :=
  mk (id e) (seekerSocketId e) (requiredSkill e) (location e) (note e)
     (createdAt e) s (assignedHelper e) (responders e).

Definition setAssignedHelper (h : option Helper.t) (e : t) : t :=
  mk (id e) (seekerSocketId e) (requiredSkill e) (location e) (note e)
     (createdAt e) (status e) h (responders e).

Definition addResponder (sid : string) (e : t) : t :=
  mk (id e) (seekerSocketId e) (requiredSkill e) (location e) (note e)
     (createdAt e) (status e) (assignedHelper e)
     (JsSet.add sid (responders e)).
End Em.

Record State : Type := mkState {
  connections : JsMap.t Conn.t;
  emergencies : JsMap.t Em.t;
  lastEmergencyAtByIP : JsMap.t Z
}.

Definition POST_COOLDOWN_MS : Z := 5000.
Definition SEARCH_RADIUS_KM : num := Num.ofZ 5.
Definition MAX_PARALLEL_DISPATCH : nat := 3.

(* ------------------------------------------------------------------ *)
(** ** Outbound notifications and acknowledgements *)

Inductive message : Type :=
| EmitDispatch (emergencyId requiredSkill : string) (seekerApprox : Pt.t)
               (distanceKm : num) (note : string) (createdAt : Z)
| EmitDispatchSummary (emergencyId : string) (pinged : nat)
| EmitAccepted (emergencyId helperId helperName : string)
| EmitTaken (emergencyId : string)
| EmitCancelled (emergencyId : string)
| EmitResolved (emergencyId : string).

(** [io.to(recipient).emit(..)] *)
Definition emission : Type := (string * message)%type.

Inductive error : Type :=
| not_connected | not_seeker | not_helper | too_many_requests
| missing_skill | missing_location | not_found | closed | taken
| not_owner | not_assigned_helper.

Inductive ack : Type :=
| AckHello (id : string)            (* { ok: true, id } *)
| AckPosted (emergencyId : string)  (* { ok: true, emergencyId } *)
| AckOk                             (* { ok: true } *)
| AckFail                           (* { ok: false } *)
| AckError (e : error).             (* { ok: false, error } *)

Inductive reply : Type :=
| Acked (a : ack)   (* the argument [ack] is called with, if supplied *)
| Silent            (* the handler never calls [ack] *)
| Threw.            (* the handler raised a TypeError *)

Record Outcome : Type := mkOutcome {
  state : State;
  emitted : list emission;
  replied : reply
}.

(** A handler that returns early: nothing written, nothing emitted. *)
Definition reject (st : State) (a : ack) : Outcome :=
  mkOutcome st [] (Acked a).

(* ------------------------------------------------------------------ *)
(** ** [Array.prototype.sort] with a comparator

    The built-in sort is stable; for a comparator that is a consistent
    ordering its result is the stable sorted arrangement, which is
    what insertion from the right computes.  A comparator result that
    is positive puts the second argument first; zero and NaN leave the
    two in their original order. *)

Definition positive (v : num) : bool := Num.ltb (Num.ofZ 0) v.

Fixpoint sortInsert {A : Type} (cmp : A -> A -> num) (x : A) (l : list A)
  : list A :=
  match l with
  | [] => [x]
  | y :: r => if positive (cmp x y) then y :: sortInsert cmp x r else x :: l
  end.

Definition arraySort {A : Type} (cmp : A -> A -> num) (l : list A) : list A :=
  fold_right (sortInsert cmp) [] l.

(* ------------------------------------------------------------------ *)
(** ** Matching *)

Record Candidate : Type := mkCandidate { sid : string; c : Conn.t; d : num }.

(** [a.c.location?.updatedAt ?? 0] *)
Definition freshness (k : Candidate) : Z :=
  match Conn.location (c k) with
  | Some l => Loc.updatedAt l
  | None => 0
  end.

(** The comparator passed to [candidates.sort]. *)
Definition compareCandidates (a b : Candidate) : num :=
  if negb (Num.eqb (d a) (d b)) then Num.sub (d a) (d b)
  else if negb (Num.eqb (Conn.rating (c a)) (Conn.rating (c b)))
       then Num.sub (Conn.rating (c b)) (Conn.rating (c a))
       else Num.ofZ (freshness b - freshness a).

Section Engine.
Context `{Host}.

(** One iteration of the loop over [connections]. *)
Definition consider (requiredSkill : string) (lat lng : num)
    (candidates : list Candidate) (entry : string * Conn.t)
  : list Candidate :=
  let '(sid, c) := entry in
  if negb (isHelper (Conn.role c)) then candidates
  else if negb (Conn.available c) then candidates
  else match Conn.location c with
       | None => candidates
       | Some loc =>
           if negb (JsSet.has requiredSkill (Conn.skills c)) then candidates
           else
             let d := haversineKm lat lng (Loc.lat loc) (Loc.lng loc) in
             if Num.leb d SEARCH_RADIUS_KM
             then (candidates ++ [mkCandidate sid c d])%list
             else candidates
       end.

Definition rankHelpers (conns : JsMap.t Conn.t)
    (requiredSkill : string) (lat lng : num) : list Candidate :=
  let candidates := fold_left (consider requiredSkill lat lng) conns [] in
  firstn 25 (arraySort compareCandidates candidates).

(** The notification sent to one target of a dispatch round. *)
Definition dispatchMessage (em : Em.t) (k : Candidate) : message :=
  EmitDispatch (Em.id em) (Em.requiredSkill em)
    (Pt.mk (Pt.lat (Em.location em)) (Pt.lng (Em.location em)))
    (toFixed2 (d k))
    (if isEmpty (Em.note em) then "" else Em.note em)
    (Em.createdAt em).

(** One iteration of the loop over [targets]. *)
Definition ping (acc : Em.t * list emission) (k : Candidate)
  : Em.t * list emission :=
  let '(em, out) := acc in
  (Em.addResponder (sid k) em, (out ++ [(sid k, dispatchMessage em k)])%list).

Definition dispatchEmergency (conns : JsMap.t Conn.t) (em : Em.t)
  : Em.t * list emission :=
  let ranked :=
    rankHelpers conns (Em.requiredSkill em)
      (Pt.lat (Em.location em)) (Pt.lng (Em.location em)) in
  let targets := firstn (Nat.max 1 MAX_PARALLEL_DISPATCH) ranked in
  let '(em1, out) := fold_left ping targets (em, []) in
  let em2 :=
    if Nat.ltb 0 (List.length targets) then Em.setStatus dispatched em1
    else em1 in
  (em2,
   (out ++ [(Em.seekerSocketId em2,
             EmitDispatchSummary (Em.id em2) (List.length targets))])%list).

(* ---------------------------------------------------------------- *)
(** ** Socket logic *)

(** [skills.map((s) => s.toLowerCase())]: a method call on anything
    but a string raises. *)
Fixpoint lowerAll (items : list jsval) : option (list string) :=
  match items with
  | [] => Some []
  | JStr s :: r =>
      match lowerAll r with
      | Some l => Some (toLowerCase s :: l)
      | None => None
      end
  | _ :: _ => None
  end.

Definition on_hello (st : State) (socketId : string) (payload : jsval)
  : Outcome :=
  let p := jsOr payload (JObj []) in
  let role := prop "role" p in
  let name := prop "name" p in
  let skills := orDefault (prop "skills" p) (JArr []) in
  let rating := orDefault (prop "rating" p) (JNum (Fin (9 # 2))) in
  let skillSet :=
    match skills with
    | JArr items =>
        match lowerAll items with
        | Some l => Some (JsSet.ofList l)
        | None => None
        end
    | _ => Some (JsSet.ofList [])
    end in
  match skillSet with
  | None => mkOutcome st [] Threw
  | Some set =>
      let entry :=
        Conn.mk socketId
          (match role with
           | JStr r => if String.eqb r "helper" then helper else seeker
           | _ => seeker
           end)
          (match name with
           | JStr n => if isEmpty (trim n) then "Guest" else trim n
           | _ => "Guest"
           end)
          set
          None
          true
          (if Num.truthy (jsNumber rating) then jsNumber rating
           else Fin (9 # 2)) in
      mkOutcome
        (mkState (JsMap.set socketId entry (connections st))
                 (emergencies st) (lastEmergencyAtByIP st))
        [] (Acked (AckHello socketId))
  end.

Definition on_status_availability (st : State) (socketId : string)
    (data : jsval) : Outcome :=
  match JsMap.get socketId (connections st) with
  | None => mkOutcome st [] Silent
  | Some c =>
      mkOutcome
        (mkState
           (JsMap.set socketId
              (Conn.setAvailable (truthy (prop "available" data)) c)
              (connections st))
           (emergencies st) (lastEmergencyAtByIP st))
        [] Silent
  end.

Definition on_location_update (st : State) (socketId : string)
    (loc : jsval) (now : Z) : Outcome :=
  match JsMap.get socketId (connections st) with
  | None => mkOutcome st [] Silent
  | Some c =>
      let l := jsOr loc (JObj []) in
      match prop "lat" l, prop "lng" l with
      | JNum lat, JNum lng =>
          mkOutcome
            (mkState
               (JsMap.set socketId
                  (Conn.setLocation (Some (Loc.mk lat lng now)) c)
                  (connections st))
               (emergencies st) (lastEmergencyAtByIP st))
            [] Silent
      | _, _ => mkOutcome st [] Silent
      end
  end.

(** [lastEmergencyAtByIP.get(ip) || 0] *)
Definition lastAtOf (ip : string) (m : JsMap.t Z) : Z :=
  match JsMap.get ip m with
  | Some t => if Z.eqb t 0 then 0 else t
  | None => 0
  end.

(** Seeker posts an emergency.  [address] is
    [socket.handshake.address]; [now1], [now2], [now3] are the three
    successive readings of [now()]; [rnd] is the random part of
    [uid]. *)
Definition on_emergency_post (st : State) (socketId address : string)
    (payload : jsval) (now1 now2 now3 : Z) (rnd : string) : Outcome :=
  match JsMap.get socketId (connections st) with
  | None => reject st (AckError not_connected)
  | Some c =>
      match Conn.role c with
      | helper => reject st (AckError not_seeker)
      | seeker =>
          let ip := if isEmpty address then "unknown" else address in
          let lastAt := lastAtOf ip (lastEmergencyAtByIP st) in
          if Z.ltb (now1 - lastAt) POST_COOLDOWN_MS
          then reject st (AckError too_many_requests)
          else
            let st1 :=
              mkState (connections st) (emergencies st)
                      (JsMap.set ip now2 (lastEmergencyAtByIP st)) in
            let requiredSkill :=
              trim (toLowerCase
                (jsString (jsOr (prop "requiredSkill" payload) (JStr "")))) in
            let note := jsString (jsOr (prop "note" payload) (JStr "")) in
            let location := jsOr (prop "location" payload) (JObj []) in
            if isEmpty requiredSkill
            then reject st1 (AckError missing_skill)
            else
              match prop "lat" location, prop "lng" location with
              | JNum lat, JNum lng =>
                  let em :=
                    Em.mk ("em_" ++ rnd) socketId requiredSkill
                          (Pt.mk lat lng) note now3 pending None [] in
                  let stored := JsMap.set (Em.id em) em (emergencies st1) in
                  let '(em', out) := dispatchEmergency (connections st1) em in
                  mkOutcome
                    (mkState (connections st1)
                             (JsMap.set (Em.id em) em' stored)
                             (lastEmergencyAtByIP st1))
                    out (Acked (AckPosted (Em.id em)))
              | _, _ => reject st1 (AckError missing_location)
              end
      end
  end.

Definition isClosed (s : Status) : bool :=
  match s with cancelled | resolved => true | _ => false end.

(** Helper accepts. *)
Definition on_emergency_accept (st : State) (socketId emergencyId : string)
  : Outcome :=
  match JsMap.get socketId (connections st) with
  | None => reject st (AckError not_helper)
  | Some c =>
      if negb (isHelper (Conn.role c)) then reject st (AckError not_helper)
      else
        match JsMap.get emergencyId (emergencies st) with
        | None => reject st (AckError not_found)
        | Some em =>
            if isClosed (Em.status em) then reject st (AckError closed)
            else
              match Em.assignedHelper em with
              | Some _ => reject st (AckError taken)
              | None =>
                  let em' :=
                    Em.setStatus accepted
                      (Em.setAssignedHelper
                         (Some (Helper.mk socketId (Conn.name c))) em) in
                  let c' := Conn.setAvailable false c in
                  mkOutcome
                    (mkState (JsMap.set socketId c' (connections st))
                             (JsMap.set emergencyId em' (emergencies st))
                             (lastEmergencyAtByIP st))
                    ((Em.seekerSocketId em',
                      EmitAccepted (Em.id em') socketId (Conn.name c))
                     :: map (fun sid => (sid, EmitTaken (Em.id em')))
                          (filter (fun sid => negb (String.eqb sid socketId))
                                  (Em.responders em')))
                    (Acked AckOk)
              end
        end
  end.

(** Seeker cancels. *)
Definition on_emergency_cancel (st : State) (socketId emergencyId : string)
  : Outcome :=
  match JsMap.get socketId (connections st),
        JsMap.get emergencyId (emergencies st) with
  | Some c, Some em =>
      if negb (String.eqb (Em.seekerSocketId em) socketId)
      then reject st (AckError not_owner)
      else
        let em' := Em.setStatus cancelled em in
        mkOutcome
          (mkState (connections st)
                   (JsMap.set emergencyId em' (emergencies st))
                   (lastEmergencyAtByIP st))
          (map (fun sid => (sid, EmitCancelled emergencyId))
               (Em.responders em')
           ++ match Em.assignedHelper em' with
              | Some h => [(Helper.socketId h, EmitCancelled emergencyId)]
              | None => []
              end)%list
          (Acked AckOk)
  | _, _ => reject st AckFail
  end.

(** Mark resolved (helper). *)
Definition on_emergency_resolved (st : State) (socketId emergencyId : string)
  : Outcome :=
  match JsMap.get socketId (connections st),
        JsMap.get emergencyId (emergencies st) with
  | Some c, Some em =>
      match Em.assignedHelper em with
      | None => reject st (AckError not_assigned_helper)
      | Some h =>
          if negb (String.eqb (Helper.socketId h) socketId)
          then reject st (AckError not_assigned_helper)
          else
            let em' := Em.setStatus resolved em in
            let c' := Conn.setAvailable true c in
            mkOutcome
              (mkState (JsMap.set socketId c' (connections st))
                       (JsMap.set emergencyId em' (emergencies st))
                       (lastEmergencyAtByIP st))
              [(Em.seekerSocketId em', EmitResolved emergencyId)]
              (Acked AckOk)
      end
  | _, _ => reject st AckFail
  end.

(** [em.assignedHelper?.socketId === socket.id && em.status === 'accepted'] *)
Definition heldBy (socketId : string) (em : Em.t) : bool :=
  match Em.assignedHelper em with
  | Some h => String.eqb (Helper.socketId h) socketId
              && statusEqb (Em.status em) accepted
  | None => false
  end.

(** One iteration of the loop over [emergencies.values()] on
    disconnect; the registry still holds the leaving party. *)
Definition reopen (socketId : string) (conns : JsMap.t Conn.t)
    (acc : JsMap.t Em.t * list emission) (entry : string * Em.t)
  : JsMap.t Em.t * list emission :=
  let '(seen, out) := acc in
  let '(key, em) := entry in
  if heldBy socketId em then
    let '(em', o) :=
      dispatchEmergency conns
        (Em.setStatus pending (Em.setAssignedHelper None em)) in
    ((seen ++ [(key, em')])%list, (out ++ o)%list)
  else ((seen ++ [(key, em)])%list, out).

Definition on_disconnect (st : State) (socketId : string) : Outcome :=
  match JsMap.get socketId (connections st) with
  | None => mkOutcome st [] Silent
  | Some _ =>
      let '(ems, out) :=
        fold_left (reopen socketId (connections st)) (emergencies st) ([], [])
      in
      mkOutcome
        (mkState (JsMap.delete socketId (connections st)) ems
                 (lastEmergencyAtByIP st))
        out Silent
  end.

(* ---------------------------------------------------------------- *)
(** ** Events, processed one at a time

    Accept, cancel and resolve carry the request id as a string: any
    other value is no key of [emergencies] and behaves as an unknown
    id. *)

Inductive event : Type :=
| Hello (socketId : string) (payload : jsval)
| StatusAvailability (socketId : string) (data : jsval)
| LocationUpdate (socketId : string) (loc : jsval) (now : Z)
| EmergencyPost (socketId address : string) (payload : jsval)
                (now1 now2 now3 : Z) (rnd : string)
| EmergencyAccept (socketId emergencyId : string)
| EmergencyCancel (socketId emergencyId : string)
| EmergencyResolved (socketId emergencyId : string)
| Disconnect (socketId : string).

Definition handle (st : State) (e : event) : Outcome :=
  match e with
  | Hello s p => on_hello st s p
  | StatusAvailability s v => on_status_availability st s v
  | LocationUpdate s l t => on_location_update st s l t
  | EmergencyPost s a p t1 t2 t3 r => on_emergency_post st s a p t1 t2 t3 r
  | EmergencyAccept s i => on_emergency_accept st s i
  | EmergencyCancel s i => on_emergency_cancel st s i
  | EmergencyResolved s i => on_emergency_resolved st s i
  | Disconnect s => on_disconnect st s
  end.

(** The store after a sequence of events, with every reply. *)
Fixpoint run (st : State) (es : list event) : State * list reply :=
  match es with
  | [] => (st, [])
  | e :: r =>
      let o := handle st e in
      let '(st', rs) := run (state o) r in
      (st', replied o :: rs)
  end.

Definition initial : State := mkState [] [] [].
End Engine.

(* ------------------------------------------------------------------ *)
(** ** A host to run scenarios on

    [planarKm] is 0 for coincident points, as the haversine of the
    source is (the sine of 0 is 0), and grows with the separation
    elsewhere; the scenarios below place every party at the same
    point.  The two string conversions are exact on integers. *)

Definition qabs (q : Q) : Q := if Qle_bool 0 q then q else Qopp q.

Definition planarKm (lat1 lon1 lat2 lon2 : num) : num :=
  match lat1, lon1, lat2, lon2 with
  | Fin a, Fin b, Fin a', Fin b' =>
      Fin (Qred ((111 # 1) * (qabs (a' - a) + qabs (b' - b))))
  | _, _, _, _ => NaN
  end.

Definition roundCenti (x : num) : num :=
  match x with
  | Fin q =>
      Fin (Qred (inject_Z (Qfloor (q * (100 # 1) + (1 # 2))) / (100 # 1)))
  | _ => x
  end.

Definition showNumber (x : num) : string :=
  match x with
  | NaN => "NaN"
  | PosInf => "Infinity"
  | NegInf => "-Infinity"
  | Fin q => DecimalString.NilZero.string_of_int (Z.to_int (Qfloor q))
  end.

Definition readNumber (s : string) : num :=
  match trim s with
  | EmptyString => Num.ofZ 0
  | t =>
      match DecimalString.NilZero.int_of_string t with
      | Some i => Num.ofZ (Z.of_int i)
      | None => NaN
      end
  end.

#[local] Instance sampleHost : Host := {
  haversineKm := planarKm;
  toFixed2 := roundCenti;
  numberToString := showNumber;
  stringToNumber := readNumber
}.

Definition chennai : jsval :=
  JObj [("lat", JNum (Fin (130827 # 10000)));
        ("lng", JNum (Fin (802707 # 10000)))].

(* ------------------------------------------------------------------ *)
(** ** Scenarios

    Two helpers with the capability "bike" and one seeker, all at the
    same coordinates; the seeker has posted one request, which was
    dispatched to both helpers. *)

Definition helperHello (name : string) : jsval :=
  JObj [("role", JStr "helper"); ("name", JStr name);
        ("skills", JArr [JStr "bike"])].

Definition bikeRequest : jsval :=
  JObj [("requiredSkill", JStr "bike"); ("location", chennai)].

Definition mechanicRequest : jsval :=
  JObj [("requiredSkill", JStr "Mechanic"); ("location", chennai)].

Definition opening : list event :=
  [ Hello "h1" (helperHello "Asha");
    LocationUpdate "h1" chennai 1000;
    Hello "h2" (helperHello "Ravi");
    LocationUpdate "h2" chennai 2000;
    Hello "s1" (JObj [("role", JStr "seeker"); ("name", JStr "Mala")]);
    EmergencyPost "s1" "10.0.0.1" bikeRequest 100000 100001 100002 "abc" ].

Definition dispatchedState : State :=
  Eval vm_compute in fst (run initial opening).

(** Two helpers located at the same instant: the comparator cannot
    tell them apart. *)
Definition tiedState : State :=
  Eval vm_compute in
    fst (run initial
           [ Hello "h1" (helperHello "Asha");
             Hello "h2" (helperHello "Ravi");
             LocationUpdate "h2" chennai 1000;
             LocationUpdate "h1" chennai 1000 ]).

(** ... then helper h1 accepted it. *)
Definition acceptedState : State :=
  Eval vm_compute in
    state (handle dispatchedState (EmergencyAccept "h1" "em_abc")).

(** ... then h1 marked it resolved. *)
Definition resolvedState : State :=
  Eval vm_compute in
    state (handle acceptedState (EmergencyResolved "h1" "em_abc")).

(** ... or instead the seeker cancelled it after h1 accepted. *)
Definition cancelledState : State :=
  Eval vm_compute in
    state (handle acceptedState (EmergencyCancel "s1" "em_abc")).

(** ... or instead h1 switched its availability back on after
    accepting. *)
Definition availableAgainState : State :=
  Eval vm_compute in
    state (handle acceptedState
             (StatusAvailability "h1" (JObj [("available", JBool true)]))).


(* ------------------------------------------------------------------ *)
(** ** The request form of the front page (script.js)

    The page state the submit listener touches: the value of the
    [description] field and the text of the items of [help-list]. *)

Module FrontPage.
Record t : Type := mk { description : string; helpList : list string }.

(** The user types into the [description] field. *)
Definition typeIn (text : string) (p : t) : t := mk text (helpList p).

(** The [submit] listener of the [emergency-request] form. *)
Definition onSubmit (p : t) : t :=
  let description := description p in
  let listItem := description in
  mk "" (helpList p ++ [listItem])%list.

(** The user types and submits each text in turn. *)
Definition submitAll (texts : list string) (p : t) : t :=
  fold_left (fun q text => onSubmit (typeIn text q)) texts p.
End FrontPage.

(* ------------------------------------------------------------------ *)
(** ** Vocabulary of the properties *)

(** No stored rating is NaN: the handshake never stores one. *)
Definition wellRated (conns : JsMap.t Conn.t) : Prop :=
  forall sid c, In (sid, c) conns -> Num.isNaN (Conn.rating c) = false.

(** What every registry built by the handlers satisfies: one entry per
    identity, and no NaN rating. *)
Definition registryOk (conns : JsMap.t Conn.t) : Prop :=
  NoDup (map fst conns) /\ wellRated conns.

(** Distance ascending, then rating descending, then freshness of the
    location descending. *)
Definition rankOrder (a b : Candidate) : Prop :=
  Num.ltb (d a) (d b) = true \/
  (Num.eqb (d a) (d b) = true /\
   (Num.ltb (Conn.rating (c b)) (Conn.rating (c a)) = true \/
    (Num.eqb (Conn.rating (c a)) (Conn.rating (c b)) = true /\
     freshness b <= freshness a))).

Definition wellKeyed (k : Candidate) : Prop :=
  Num.isNaN (d k) = false /\ Num.isNaN (Conn.rating (c k)) = false.

(** The guard of the accept transition: the caller is a registered
    helper, the request exists, is neither cancelled nor resolved, and
    has no assigned helper. *)
Definition acceptGuard (st : State) (socketId emergencyId : string) : Prop :=
  exists c em,
    JsMap.get socketId (connections st) = Some c /\
    Conn.role c = helper /\
    JsMap.get emergencyId (emergencies st) = Some em /\
    Em.status em <> cancelled /\
    Em.status em <> resolved /\
    Em.assignedHelper em = None.

Definition isHelperParty (st : State) (socketId : string) : bool :=
  match JsMap.get socketId (connections st) with
  | Some c => isHelper (Conn.role c)
  | None => false
  end.

(** Accept events for one request, one per caller. *)
Definition accepts (emergencyId : string) (callers : list string)
  : list event :=
  map (fun s => EmergencyAccept s emergencyId) callers.

(** The request as the winning accept leaves it. *)
Definition assignedTo (socketId : string) (c : Conn.t) (em : Em.t) : Em.t :=
  Em.setStatus accepted
    (Em.setAssignedHelper (Some (Helper.mk socketId (Conn.name c))) em).

(** The request after every target of a round was added to its
    [responders]. *)
Definition pinged (targets : list Candidate) (em : Em.t) : Em.t :=
  fold_left (fun e k => Em.addResponder (sid k) e) targets em.

Section Vocabulary.
Context `{Host}.

(** A helper that is available, has a location, has the required
    capability and is [dist] away from the origin, within the radius. *)
Definition Eligible (requiredSkill : string) (lat lng : num)
    (c : Conn.t) (dist : num) : Prop :=
  Conn.role c = helper /\
  Conn.available c = true /\
  JsSet.has requiredSkill (Conn.skills c) = true /\
  exists loc,
    Conn.location c = Some loc /\
    dist = haversineKm lat lng (Loc.lat loc) (Loc.lng loc) /\
    Num.leb dist SEARCH_RADIUS_KM = true.

Definition eligibleb (requiredSkill : string) (lat lng : num)
    (entry : string * Conn.t) : bool :=
  let c := snd entry in
  isHelper (Conn.role c) && Conn.available c &&
  JsSet.has requiredSkill (Conn.skills c) &&
  match Conn.location c with
  | Some loc =>
      Num.leb (haversineKm lat lng (Loc.lat loc) (Loc.lng loc)) SEARCH_RADIUS_KM
  | None => false
  end.

Definition candidateOf (lat lng : num) (entry : string * Conn.t) : Candidate :=
  mkCandidate (fst entry) (snd entry)
    match Conn.location (snd entry) with
    | Some loc => haversineKm lat lng (Loc.lat loc) (Loc.lng loc)
    | None => NaN
    end.

(** The targets of a dispatch round for a request. *)
Definition targetsOf (conns : JsMap.t Conn.t) (em : Em.t) : list Candidate :=
  firstn (Nat.max 1 MAX_PARALLEL_DISPATCH)
    (rankHelpers conns (Em.requiredSkill em)
       (Pt.lat (Em.location em)) (Pt.lng (Em.location em))).

(** A request whose assigned helper was lost, put back to [pending]
    and dispatched again. *)
Definition reopened (conns : JsMap.t Conn.t) (em : Em.t)
  : Em.t * list emission :=
  dispatchEmergency conns
    (Em.setStatus pending (Em.setAssignedHelper None em)).

(** What the post handler reads from its inputs. *)
Definition ipOf (address : string) : string :=
  if isEmpty address then "unknown" else address.

Definition requiredSkillOf (payload : jsval) : string :=
  trim (toLowerCase
    (jsString (jsOr (prop "requiredSkill" payload) (JStr "")))).

Definition noteOf (payload : jsval) : string :=
  jsString (jsOr (prop "note" payload) (JStr "")).

Definition locationOf (payload : jsval) : jsval :=
  jsOr (prop "location" payload) (JObj []).

Definition numericCoords (payload : jsval) : bool :=
  isNumber (prop "lat" (locationOf payload)) &&
  isNumber (prop "lng" (locationOf payload)).

Definition numberOf (v : jsval) : num :=
  match v with JNum n => n | _ => NaN end.

(** The stores once the cooldown map was stamped for the caller's
    address. *)
Definition stamped (st : State) (address : string) (now2 : Z) : State :=
  mkState (connections st) (emergencies st)
          (JsMap.set (ipOf address) now2 (lastEmergencyAtByIP st)).

(** The request a successful post creates, before it is dispatched. *)
Definition newRequest (socketId : string) (payload : jsval) (now3 : Z)
    (rnd : string) : Em.t :=
  Em.mk ("em_" ++ rnd) socketId (requiredSkillOf payload)
    (Pt.mk (numberOf (prop "lat" (locationOf payload)))
           (numberOf (prop "lng" (locationOf payload))))
    (noteOf payload) now3 pending None [].

(** The guard of the create transition: the caller is a connected
    seeker, the address is out of its cooldown window at the reading
    [now1], the normalized capability is not empty, and both
    coordinates are numbers. *)
Definition postGuard (st : State) (socketId address : string)
    (payload : jsval) (now1 : Z) : Prop :=
  (exists c, JsMap.get socketId (connections st) = Some c /\
             Conn.role c = seeker) /\
  POST_COOLDOWN_MS <= now1 - lastAtOf (ipOf address) (lastEmergencyAtByIP st) /\
  requiredSkillOf payload <> "" /\
  numericCoords payload = true.

(** The eligible entries of the registry, in registry order. *)
Definition eligibleCandidates (conns : JsMap.t Conn.t)
    (requiredSkill : string) (lat lng : num) : list Candidate :=
  map (candidateOf lat lng) (filter (eligibleb requiredSkill lat lng) conns).
End Vocabulary.

(* ------------------------------------------------------------------ *)
(** ** Vocabulary of the further properties *)

(** The socket an event arrives on. *)
Definition sender (e : event) : string :=
  match e with
  | Hello s _ | StatusAvailability s _ | LocationUpdate s _ _
  | EmergencyPost s _ _ _ _ _ _ | EmergencyAccept s _
  | EmergencyCancel s _ | EmergencyResolved s _ | Disconnect s => s
  end.

(** The id under which an event stores a new request, if it stores
    one. *)
Definition storesUnder (e : event) (key : string) : Prop :=
  match e with
  | EmergencyPost _ _ _ _ _ _ rnd => "em_" ++ rnd = key
  | _ => False
  end.

(** The fields of a party that are fixed by its handshake. *)
Definition sameParty (a b : Conn.t) : Prop :=
  Conn.id a = Conn.id b /\ Conn.role a = Conn.role b /\
  Conn.name a = Conn.name b /\ Conn.skills a = Conn.skills b /\
  Conn.rating a = Conn.rating b.

(** The fields of a request that are fixed at its creation. *)
Definition sameRequest (a b : Em.t) : Prop :=
  Em.id a = Em.id b /\ Em.seekerSocketId a = Em.seekerSocketId b /\
  Em.requiredSkill a = Em.requiredSkill b /\
  Em.location a = Em.location b /\ Em.note a = Em.note b /\
  Em.createdAt a = Em.createdAt b.

(** Status and assignment agree: an open request that is not accepted
    has no assigned helper, an accepted one has one. *)
Definition coherent (em : Em.t) : Prop :=
  match Em.status em with
  | pending | dispatched => Em.assignedHelper em = None
  | accepted => Em.assignedHelper em <> None
  | cancelled | resolved => True
  end.

Definition requestsOk (ems : JsMap.t Em.t) : Prop :=
  NoDup (map fst ems) /\
  forall key em, In (key, em) ems ->
    key = Em.id em /\ coherent em /\ NoDup (Em.responders em).


(** What the handshake guarantees of a stored party: it is stored
    under its own id, its name is not empty, its rating is neither NaN
    nor zero, and its capability tags are lower-case and distinct. *)
Definition partyOk (key : string) (k : Conn.t) : Prop :=
  Conn.id k = key /\
  Conn.name k <> "" /\
  Num.truthy (Conn.rating k) = true /\
  NoDup (Conn.skills k) /\
  forall tag, In tag (Conn.skills k) -> toLowerCase tag = tag.


(** Two candidates the comparator cannot tell apart: same distance,
    same rating, same location timestamp. *)
Definition tied (a b : Candidate) : bool :=
  Num.eqb (d a) (d b) &&
  Num.eqb (Conn.rating (c a)) (Conn.rating (c b)) &&
  Z.eqb (freshness a) (freshness b).


(* ================================================================== *)
(** * Properties *)

(** ** Numbers: comparison, equality and the sign of a difference *)

Lemma Qltb_true (x y : Q) : negb (Qle_bool y x) = true <-> (x < y)%Q.
Proof.
  rewrite negb_true_iff. split; intro E.
  - apply Qnot_le_lt. intro L. apply Qle_bool_iff in L. congruence.
  - destruct (Qle_bool y x) eqn:B; [|reflexivity].
    apply Qle_bool_iff in B. lra.
Qed.

Lemma Qltb_false (x y : Q) : negb (Qle_bool y x) = false <-> (y <= x)%Q.
Proof.
  rewrite negb_false_iff. apply Qle_bool_iff.
Qed.

Lemma Qeqb_false (x y : Q) : Qeq_bool x y = false <-> ~ (x == y)%Q.
Proof.
  split; intro E.
  - intro Q. apply Qeq_bool_iff in Q. congruence.
  - destruct (Qeq_bool x y) eqn:B; [|reflexivity].
    apply Qeq_bool_iff in B. contradiction.
Qed.

Ltac num_solve :=
  repeat match goal with x : num |- _ => destruct x end;
  cbn [Num.ltb Num.eqb Num.leb Num.sub Num.isNaN Num.ofZ orb negb] in *;
  unfold Num.ofZ in *;
  cbn [Num.ltb Num.eqb Num.leb Num.sub Num.isNaN orb] in *;
  try congruence; try tauto;
  repeat match goal with
    | E : negb (Qle_bool _ _) = true |- _ => apply Qltb_true in E
    | E : negb (Qle_bool _ _) = false |- _ => apply Qltb_false in E
    | E : Qeq_bool _ _ = true |- _ => apply Qeq_bool_iff in E
    | E : Qeq_bool _ _ = false |- _ => apply Qeqb_false in E
    | |- negb (Qle_bool _ _) = true => apply Qltb_true
    | |- negb (Qle_bool _ _) = false => apply Qltb_false
    | |- Qeq_bool _ _ = true => apply Qeq_bool_iff
    | |- Qeq_bool _ _ = false => apply Qeqb_false
    end;
  try (unfold inject_Z in *; lra).

Lemma ltb_trans a b c :
  Num.ltb a b = true -> Num.ltb b c = true -> Num.ltb a c = true.
Proof. intros; num_solve. Qed.

Lemma eqb_trans a b c :
  Num.eqb a b = true -> Num.eqb b c = true -> Num.eqb a c = true.
Proof. intros; num_solve. Qed.

Lemma eqb_sym a b : Num.eqb a b = true -> Num.eqb b a = true.
Proof. intros; num_solve. Qed.

Lemma ltb_eqb_trans a b c :
  Num.ltb a b = true -> Num.eqb b c = true -> Num.ltb a c = true.
Proof. intros; num_solve. Qed.

Lemma eqb_ltb_trans a b c :
  Num.eqb a b = true -> Num.ltb b c = true -> Num.ltb a c = true.
Proof. intros; num_solve. Qed.

(** Where the two numbers differ and neither is NaN, the sign of the
    difference tells which is smaller. *)
Lemma sub_positive a b :
  Num.isNaN a = false -> Num.isNaN b = false -> Num.eqb a b = false ->
  positive (Num.sub a b) = Num.ltb b a.
Proof.
  unfold positive. intros Na Nb E.
  destruct (Num.ltb b a) eqn:L; num_solve.
Qed.

Lemma ltb_total a b :
  Num.isNaN a = false -> Num.isNaN b = false -> Num.eqb a b = false ->
  Num.ltb b a = false -> Num.ltb a b = true.
Proof. intros; num_solve. Qed.

Lemma positive_ofZ z : positive (Num.ofZ z) = Z.ltb 0 z.
Proof.
  unfold positive, Num.ofZ. cbn [Num.ltb].
  destruct (Z.ltb 0 z) eqn:L.
  - apply Qltb_true. apply Z.ltb_lt in L.
    unfold Qlt, inject_Z. simpl. lia.
  - apply Qltb_false. apply Z.ltb_ge in L.
    unfold Qle, inject_Z. simpl. lia.
Qed.

(** ** The built-in sort *)

Section Sorting.
Context {A : Type} (cmp : A -> A -> num).

Lemma sortInsert_perm (x : A) (l : list A) :
  Permutation (sortInsert cmp x l) (x :: l).
Proof.
  induction l as [|y r IH]; cbn [sortInsert].
  - apply Permutation_refl.
  - destruct (positive (cmp x y)).
    + eapply perm_trans; [apply perm_skip, IH | apply perm_swap].
    + apply Permutation_refl.
Qed.

Lemma arraySort_perm (l : list A) : Permutation (arraySort cmp l) l.
Proof.
  induction l as [|x r IH]; cbn [arraySort fold_right].
  - apply perm_nil.
  - eapply perm_trans; [apply sortInsert_perm | apply perm_skip, IH].
Qed.

(** The comparator agrees with an ordering [le] on the elements
    satisfying [P]. *)
Variable P : A -> Prop.
Variable le : A -> A -> Prop.
Hypothesis cmp_le :
  forall a b, P a -> P b -> positive (cmp a b) = false -> le a b.
Hypothesis cmp_ge :
  forall a b, P a -> P b -> positive (cmp a b) = true -> le b a.
Hypothesis le_trans :
  forall a b c, P a -> P b -> P c -> le a b -> le b c -> le a c.

Lemma sortInsert_sorted (x : A) (l : list A) :
  P x -> Forall P l -> StronglySorted le l ->
  StronglySorted le (sortInsert cmp x l).
Proof.
  intros Px. induction l as [|y r IH]; intros Pl Sl; cbn [sortInsert].
  - repeat constructor.
  - inversion Pl as [|? ? Py Pr]; subst.
    inversion Sl as [|? ? Sr Hy]; subst.
    destruct (positive (cmp x y)) eqn:E.
    + constructor; [apply IH; assumption|].
      eapply Permutation_Forall; [apply Permutation_sym, sortInsert_perm|].
      constructor; [apply cmp_ge; assumption | assumption].
    + constructor; [assumption|].
      assert (Lxy : le x y) by (apply cmp_le; assumption).
      constructor; [assumption|].
      rewrite Forall_forall in *. intros z Hz.
      apply (le_trans x y z); auto.
Qed.

Lemma arraySort_sorted (l : list A) :
  Forall P l -> StronglySorted le (arraySort cmp l).
Proof.
  induction l as [|x r IH]; intros Pl; cbn [arraySort fold_right].
  - constructor.
  - inversion Pl; subst.
    apply sortInsert_sorted; [assumption| |apply IH; assumption].
    eapply Permutation_Forall; [apply Permutation_sym, arraySort_perm|].
    assumption.
Qed.
End Sorting.

Lemma firstn_subset {A : Type} (n : nat) (l : list A) (x : A) :
  In x (firstn n l) -> In x l.
Proof.
  revert n. induction l as [|y r IH]; intros [|n]; cbn [firstn In];
    try tauto.
  intros [E|I]; [left; exact E | right; eapply IH; exact I].
Qed.

Lemma StronglySorted_firstn {A : Type} (le : A -> A -> Prop) (n : nat)
    (l : list A) :
  StronglySorted le l -> StronglySorted le (firstn n l).
Proof.
  revert n. induction l as [|x r IH]; intros n S.
  - rewrite firstn_nil. constructor.
  - destruct n as [|n]; [constructor|].
    inversion S as [|? ? Sr Hx]; subst. cbn [firstn].
    constructor; [apply IH; assumption|].
    rewrite Forall_forall in *. intros z Hz.
    apply Hx. eapply firstn_subset; eassumption.
Qed.

(** ** The ranker *)

Lemma eqb_comm a b : Num.eqb a b = Num.eqb b a.
Proof.
  destruct (Num.eqb b a) eqn:E; num_solve.
Qed.

Lemma leb_not_NaN a b : Num.leb a b = true -> Num.isNaN a = false.
Proof.
  unfold Num.leb. destruct a; cbn [Num.ltb Num.eqb Num.isNaN orb];
    congruence.
Qed.

Lemma compare_le (a b : Candidate) :
  wellKeyed a -> wellKeyed b ->
  positive (compareCandidates a b) = false -> rankOrder a b.
Proof.
  intros [Da Ra] [Db Rb]. unfold compareCandidates, rankOrder.
  destruct (Num.eqb (d a) (d b)) eqn:Ed; cbn [negb].
  - destruct (Num.eqb (Conn.rating (c a)) (Conn.rating (c b))) eqn:Er;
      cbn [negb].
    + rewrite positive_ofZ. intro L. apply Z.ltb_ge in L.
      right. split; [reflexivity|]. right. split; [reflexivity|]. lia.
    + rewrite sub_positive by (try assumption; rewrite eqb_comm; assumption).
      intro L. right. split; [reflexivity|]. left.
      apply ltb_total; try assumption. rewrite eqb_comm; assumption.
  - rewrite sub_positive by assumption. intro L. left.
    apply ltb_total; assumption.
Qed.

Lemma compare_ge (a b : Candidate) :
  wellKeyed a -> wellKeyed b ->
  positive (compareCandidates a b) = true -> rankOrder b a.
Proof.
  intros [Da Ra] [Db Rb]. unfold compareCandidates, rankOrder.
  destruct (Num.eqb (d a) (d b)) eqn:Ed; cbn [negb].
  - destruct (Num.eqb (Conn.rating (c a)) (Conn.rating (c b))) eqn:Er;
      cbn [negb].
    + rewrite positive_ofZ. intro L. apply Z.ltb_lt in L.
      right. split; [apply eqb_sym; assumption|]. right.
      split; [apply eqb_sym; assumption|]. lia.
    + rewrite sub_positive by (try assumption; rewrite eqb_comm; assumption).
      intro L. right. split; [apply eqb_sym; assumption|]. left. assumption.
  - rewrite sub_positive by assumption. intro L. left. assumption.
Qed.

Lemma rankOrder_trans (a b k : Candidate) :
  rankOrder a b -> rankOrder b k -> rankOrder a k.
Proof.
  unfold rankOrder.
  intros [L1|[E1 [R1|[Q1 F1]]]] [L2|[E2 [R2|[Q2 F2]]]];
    try (left; eauto using ltb_trans, ltb_eqb_trans, eqb_ltb_trans; fail);
    right; (split; [eapply eqb_trans; eassumption|]).
  - left. eapply ltb_trans; eassumption.
  - left. eapply eqb_ltb_trans; [apply eqb_sym|]; eassumption.
  - left. eapply ltb_eqb_trans; [|apply eqb_sym]; eassumption.
  - right. split; [eapply eqb_trans; eassumption | lia].
Qed.

Section RankerFacts.
Context `{Host}.
Variables (requiredSkill : string) (lat lng : num).

Lemma consider_step (acc : list Candidate) (entry : string * Conn.t) :
  consider requiredSkill lat lng acc entry =
  if eligibleb requiredSkill lat lng entry
  then (acc ++ [candidateOf lat lng entry])%list
  else acc.
Proof.
  destruct entry as [s k]. unfold consider, eligibleb, candidateOf.
  cbn [fst snd].
  destruct (isHelper (Conn.role k)); cbn [negb andb]; [|reflexivity].
  destruct (Conn.available k); cbn [negb andb]; [|reflexivity].
  destruct (Conn.location k) as [loc|].
  - destruct (JsSet.has requiredSkill (Conn.skills k)); cbn [negb andb];
      reflexivity.
  - rewrite andb_false_r. reflexivity.
Qed.

Lemma consider_fold (conns : JsMap.t Conn.t) (acc : list Candidate) :
  fold_left (consider requiredSkill lat lng) conns acc =
  (acc ++ eligibleCandidates conns requiredSkill lat lng)%list.
Proof.
  unfold eligibleCandidates.
  revert acc. induction conns as [|e r IH]; intro acc;
    cbn [fold_left filter].
  - rewrite app_nil_r. reflexivity.
  - rewrite IH, consider_step.
    destruct (eligibleb requiredSkill lat lng e); cbn [map];
      [rewrite <- app_assoc|]; reflexivity.
Qed.

Lemma eligibleb_true (s : string) (k : Conn.t) :
  eligibleb requiredSkill lat lng (s, k) = true <->
  Eligible requiredSkill lat lng k (d (candidateOf lat lng (s, k))).
Proof.
  unfold eligibleb, Eligible, candidateOf. cbn [fst snd d].
  split.
  - intro E. repeat (apply andb_prop in E; destruct E as [E ?]).
    destruct (Conn.role k); [|discriminate].
    destruct (Conn.location k) as [loc|]; [|discriminate].
    repeat split; try assumption. exists loc. auto.
  - intros (R & Av & S & loc & L & _ & D). rewrite R, Av, S, L in *.
    exact D.
Qed.

Lemma eligible_keyed (conns : JsMap.t Conn.t) :
  wellRated conns ->
  Forall wellKeyed (eligibleCandidates conns requiredSkill lat lng).
Proof.
  intro W. unfold eligibleCandidates. rewrite Forall_forall.
  intros k Hk. apply in_map_iff in Hk. destruct Hk as ([s q] & <- & I).
  apply filter_In in I. destruct I as [I E].
  apply eligibleb_true in E. destruct E as (_ & _ & _ & loc & L & Dd & Le).
  split.
  - eapply leb_not_NaN; eassumption.
  - cbn. eapply W; eassumption.
Qed.

Lemma eligible_member (conns : JsMap.t Conn.t) (k : Candidate) :
  In k (eligibleCandidates conns requiredSkill lat lng) <->
  In (sid k, c k) conns /\ Eligible requiredSkill lat lng (c k) (d k).
Proof.
  unfold eligibleCandidates. rewrite in_map_iff. split.
  - intros ([s q] & <- & I). apply filter_In in I. destruct I as [I E].
    split; [exact I|]. apply eligibleb_true in E. exact E.
  - intros [I E]. exists (sid k, c k).
    assert (D : d k = d (candidateOf lat lng (sid k, c k))).
    { destruct E as (_ & _ & _ & loc & L & Dd & _).
      unfold candidateOf. cbn [fst snd d]. rewrite L. exact Dd. }
    split.
    + destruct k as [s q x]. cbn [sid c d] in *. unfold candidateOf.
      cbn [fst snd d] in *. f_equal. symmetry. exact D.
    + apply filter_In. split; [exact I|]. apply eligibleb_true.
      rewrite <- D. exact E.
Qed.

Lemma rankHelpers_member (conns : JsMap.t Conn.t) (k : Candidate) :
  In k (rankHelpers conns requiredSkill lat lng) ->
  In (sid k, c k) conns /\ Eligible requiredSkill lat lng (c k) (d k).
Proof.
  unfold rankHelpers. rewrite consider_fold. cbn [app]. intro I.
  apply firstn_subset in I. apply eligible_member.
  eapply Permutation_in; [apply arraySort_perm | exact I].
Qed.

(** C4. The ranker's output is the first 25 entries of the eligible
    helpers of the registry (helpers that are available, located,
    capable and within the search radius), arranged by distance
    ascending, then rating descending, then location timestamp
    descending: it is sorted in that order, holds at most 25 entries,
    holds only eligible helpers, and holds every one of them when there
    are at most 25. *)
Theorem rankHelpers_filter_sort_cap (conns : JsMap.t Conn.t) :
  wellRated conns ->
  let out := rankHelpers conns requiredSkill lat lng in
  (exists full,
      out = firstn 25 full /\
      Permutation full (eligibleCandidates conns requiredSkill lat lng) /\
      StronglySorted rankOrder full) /\
  StronglySorted rankOrder out /\
  (List.length out <= 25)%nat /\
  (forall k, In k out ->
     In (sid k, c k) conns /\
     Eligible requiredSkill lat lng (c k) (d k)) /\
  ((List.length (eligibleCandidates conns requiredSkill lat lng) <= 25)%nat ->
   forall k, In (sid k, c k) conns ->
     Eligible requiredSkill lat lng (c k) (d k) -> In k out).
Proof.
  intros W out.
  set (full := arraySort compareCandidates
                 (eligibleCandidates conns requiredSkill lat lng)).
  assert (Eo : out = firstn 25 full).
  { unfold out, rankHelpers. rewrite consider_fold. reflexivity. }
  assert (Pf : Permutation full
                 (eligibleCandidates conns requiredSkill lat lng))
    by apply arraySort_perm.
  assert (Sf : StronglySorted rankOrder full).
  { apply (arraySort_sorted compareCandidates wellKeyed rankOrder).
    - exact compare_le.
    - exact compare_ge.
    - intros a b k _ _ _. apply rankOrder_trans.
    - apply eligible_keyed. exact W. }
  split; [exists full; auto|].
  split; [rewrite Eo; apply StronglySorted_firstn; exact Sf|].
  split; [rewrite Eo; apply firstn_le_length|].
  split.
  - intros k Hk. rewrite Eo in Hk. apply firstn_subset in Hk.
    apply eligible_member. eapply Permutation_in; eassumption.
  - intros Len k I E. rewrite Eo.
    rewrite firstn_all2.
    + eapply Permutation_in; [apply Permutation_sym; exact Pf|].
      apply eligible_member. auto.
    + rewrite (Permutation_length Pf). exact Len.
Qed.
End RankerFacts.

(** ** The dispatcher *)

Lemma set_add_member (x s : string) (l : JsSet.t) :
  In s (JsSet.add x l) <-> s = x \/ In s l.
Proof.
  unfold JsSet.add, JsSet.has.
  destruct (existsb (String.eqb x) l) eqn:E.
  - split; [auto|]. intros [->|I]; [|exact I].
    apply existsb_exists in E. destruct E as (y & I & Q).
    apply String.eqb_eq in Q. subst y. exact I.
  - rewrite in_app_iff. cbn [In]. intuition congruence.
Qed.

Lemma note_or_empty (s : string) : (if isEmpty s then "" else s) = s.
Proof. destruct s; reflexivity. Qed.

Section DispatcherFacts.
Context `{Host}.

Lemma ping_fold (targets : list Candidate) (em : Em.t) (out : list emission) :
  fold_left ping targets (em, out) =
  (pinged targets em,
   (out ++ map (fun k => (sid k, dispatchMessage em k)) targets)%list).
Proof.
  unfold pinged.
  revert em out. induction targets as [|k r IH]; intros em out;
    cbn [fold_left map].
  - rewrite app_nil_r. reflexivity.
  - unfold ping at 2. rewrite IH. rewrite <- app_assoc. reflexivity.
Qed.

Lemma pinged_responders (targets : list Candidate) (em : Em.t) (s : string) :
  In s (Em.responders (pinged targets em)) <->
  In s (Em.responders em) \/ In s (map sid targets).
Proof.
  unfold pinged.
  revert em. induction targets as [|k r IH]; intro em; cbn [fold_left map In].
  - tauto.
  - rewrite IH. cbn [Em.addResponder Em.responders].
    rewrite set_add_member. intuition congruence.
Qed.

Lemma pinged_frame (targets : list Candidate) (em : Em.t) :
  Em.setStatus (Em.status em) (pinged targets em) = pinged targets em /\
  Em.id (pinged targets em) = Em.id em /\
  Em.seekerSocketId (pinged targets em) = Em.seekerSocketId em /\
  Em.requiredSkill (pinged targets em) = Em.requiredSkill em /\
  Em.location (pinged targets em) = Em.location em /\
  Em.note (pinged targets em) = Em.note em /\
  Em.createdAt (pinged targets em) = Em.createdAt em /\
  Em.status (pinged targets em) = Em.status em /\
  Em.assignedHelper (pinged targets em) = Em.assignedHelper em.
Proof.
  unfold pinged.
  revert em. induction targets as [|k r IH]; intro em; cbn [fold_left].
  - destruct em; cbn. tauto.
  - specialize (IH (Em.addResponder (sid k) em)).
    cbn [Em.addResponder Em.id Em.seekerSocketId Em.requiredSkill
         Em.location Em.note Em.createdAt Em.status Em.assignedHelper] in IH.
    exact IH.
Qed.

Lemma dispatchEmergency_unfold (conns : JsMap.t Conn.t) (em : Em.t) :
  let targets := targetsOf conns em in
  dispatchEmergency conns em =
  (if Nat.ltb 0 (List.length targets)
   then Em.setStatus dispatched (pinged targets em)
   else pinged targets em,
   (map (fun k => (sid k, dispatchMessage em k)) targets
    ++ [(Em.seekerSocketId em,
         EmitDispatchSummary (Em.id em) (List.length targets))])%list).
Proof.
  intro targets. unfold dispatchEmergency. fold (targetsOf conns em).
  fold targets. rewrite ping_fold. cbn [app].
  destruct (pinged_frame targets em) as (_ & I & S & _).
  destruct (Nat.ltb 0 (List.length targets));
    cbn [Em.setStatus Em.id Em.seekerSocketId]; rewrite I, S; reflexivity.
Qed.
End DispatcherFacts.

Section DispatchRound.
Context `{Host}.

(** C5. A dispatch round takes the first max(1, K) ranked candidates
    (K = 3), adds each one's identity to [responders], sends each a
    dispatch notification with the request id, the required capability,
    the origin, the computed distance (rounded to two decimals), the
    note and the creation time, sets the status to [dispatched] when
    there is at least one target and leaves it as it was otherwise, and
    always ends with a summary to the seeker carrying the number of
    targets; no other field of the request changes. *)
Theorem dispatchEmergency_fanout (conns : JsMap.t Conn.t) (em : Em.t) :
  let targets :=
    firstn (Nat.max 1 MAX_PARALLEL_DISPATCH)
      (rankHelpers conns (Em.requiredSkill em)
         (Pt.lat (Em.location em)) (Pt.lng (Em.location em))) in
  let em' := fst (dispatchEmergency conns em) in
  let out := snd (dispatchEmergency conns em) in
  Nat.max 1 MAX_PARALLEL_DISPATCH = 3%nat /\
  (forall s, In s (Em.responders em') <->
             In s (Em.responders em) \/ In s (map sid targets)) /\
  out =
    (map (fun k =>
            (sid k,
             EmitDispatch (Em.id em) (Em.requiredSkill em) (Em.location em)
               (toFixed2 (d k)) (Em.note em) (Em.createdAt em))) targets
     ++ [(Em.seekerSocketId em,
          EmitDispatchSummary (Em.id em) (List.length targets))])%list /\
  (targets <> [] -> Em.status em' = dispatched) /\
  (targets = [] -> Em.status em' = Em.status em) /\
  Em.id em' = Em.id em /\
  Em.seekerSocketId em' = Em.seekerSocketId em /\
  Em.requiredSkill em' = Em.requiredSkill em /\
  Em.location em' = Em.location em /\
  Em.note em' = Em.note em /\
  Em.createdAt em' = Em.createdAt em /\
  Em.assignedHelper em' = Em.assignedHelper em.
Proof.
  intros targets em' out.
  pose proof (dispatchEmergency_unfold conns em) as E. cbn zeta in E.
  change (targetsOf conns em) with targets in E.
  subst em' out. rewrite E. cbn [fst snd].
  destruct (pinged_frame targets em) as (_ & I & S & R & L & N & C & St & A).
  split; [reflexivity|].
  split.
  { intro s. rewrite <- pinged_responders.
    destruct (Nat.ltb 0 (List.length targets)); reflexivity. }
  split.
  { f_equal. apply map_ext. intro k. unfold dispatchMessage.
    rewrite note_or_empty. destruct (Em.location em); reflexivity. }
  split.
  { intro NE. destruct targets; [congruence|]. reflexivity. }
  split.
  { intro NE. rewrite NE. cbn. rewrite NE in St. exact St. }
  destruct (Nat.ltb 0 (List.length targets));
    cbn [Em.setStatus Em.id Em.seekerSocketId Em.requiredSkill Em.location
         Em.note Em.createdAt Em.assignedHelper]; auto 10.
Qed.
End DispatchRound.

(** ** Maps *)

Section MapFacts.
Context {V : Type}.

Lemma get_set_same (k : string) (v : V) (m : JsMap.t V) :
  JsMap.get k (JsMap.set k v m) = Some v.
Proof.
  induction m as [|[k' v'] r IH]; cbn [JsMap.set JsMap.get].
  - rewrite String.eqb_refl. reflexivity.
  - destruct (String.eqb k k') eqn:E; cbn [JsMap.get].
    + rewrite String.eqb_refl. reflexivity.
    + rewrite E. exact IH.
Qed.

Lemma get_set_other (k k' : string) (v : V) (m : JsMap.t V) :
  k' <> k -> JsMap.get k' (JsMap.set k v m) = JsMap.get k' m.
Proof.
  intro N. apply String.eqb_neq in N.
  induction m as [|[k0 v0] r IH]; cbn [JsMap.set JsMap.get].
  - rewrite N. reflexivity.
  - destruct (String.eqb k k0) eqn:E; cbn [JsMap.get].
    + apply String.eqb_eq in E. subst k0. rewrite N. reflexivity.
    + rewrite IH. reflexivity.
Qed.

Lemma set_set (k : string) (v w : V) (m : JsMap.t V) :
  JsMap.set k w (JsMap.set k v m) = JsMap.set k w m.
Proof.
  induction m as [|[k0 v0] r IH]; cbn [JsMap.set].
  - rewrite String.eqb_refl. reflexivity.
  - destruct (String.eqb k k0) eqn:E; cbn [JsMap.set].
    + rewrite String.eqb_refl. reflexivity.
    + rewrite E, IH. reflexivity.
Qed.
End MapFacts.

(** ** Acceptance arbitration *)

Lemma accept_not_helper (st : State) (s i : string) :
  isHelperParty st s = false ->
  on_emergency_accept st s i = reject st (AckError not_helper).
Proof.
  unfold isHelperParty, on_emergency_accept.
  destruct (JsMap.get s (connections st)) as [k|]; [|reflexivity].
  intros ->. reflexivity.
Qed.

Lemma accept_taken (st : State) (s i : string) (em : Em.t) (h : Helper.t) :
  isHelperParty st s = true ->
  JsMap.get i (emergencies st) = Some em ->
  isClosed (Em.status em) = false ->
  Em.assignedHelper em = Some h ->
  on_emergency_accept st s i = reject st (AckError taken).
Proof.
  unfold isHelperParty, on_emergency_accept.
  destruct (JsMap.get s (connections st)) as [k|]; [|discriminate].
  intros -> -> -> ->. reflexivity.
Qed.

Lemma accept_wins (st : State) (s i : string) (k : Conn.t) (em : Em.t) :
  JsMap.get s (connections st) = Some k ->
  Conn.role k = helper ->
  JsMap.get i (emergencies st) = Some em ->
  isClosed (Em.status em) = false ->
  Em.assignedHelper em = None ->
  on_emergency_accept st s i =
  mkOutcome
    (mkState (JsMap.set s (Conn.setAvailable false k) (connections st))
             (JsMap.set i (assignedTo s k em) (emergencies st))
             (lastEmergencyAtByIP st))
    ((Em.seekerSocketId em, EmitAccepted (Em.id em) s (Conn.name k))
     :: map (fun r => (r, EmitTaken (Em.id em)))
          (filter (fun r => negb (String.eqb r s)) (Em.responders em)))
    (Acked AckOk).
Proof.
  unfold on_emergency_accept. intros -> R -> C A.
  rewrite R, C, A. reflexivity.
Qed.

Lemma isClosed_false (s : Status) :
  isClosed s = false <-> s <> cancelled /\ s <> resolved.
Proof.
  destruct s; cbn [isClosed]; split; intro E;
    try discriminate E; try reflexivity;
    try (split; discriminate); destruct E as [E1 E2]; congruence.
Qed.

Lemma accept_ok_iff (st : State) (s i : string) :
  replied (on_emergency_accept st s i) = Acked AckOk <-> acceptGuard st s i.
Proof.
  unfold acceptGuard. split.
  - unfold on_emergency_accept.
    destruct (JsMap.get s (connections st)) as [k|]; [|discriminate].
    destruct (Conn.role k) eqn:R; [|discriminate]. cbn [isHelper negb].
    destruct (JsMap.get i (emergencies st)) as [em|]; [|discriminate].
    destruct (isClosed (Em.status em)) eqn:C; [discriminate|].
    destruct (Em.assignedHelper em) eqn:A; [discriminate|].
    intros _. apply isClosed_false in C. exists k, em. tauto.
  - intros (k & em & G & R & E & C1 & C2 & A).
    rewrite (accept_wins st s i k em); auto.
    apply isClosed_false. auto.
Qed.

Lemma accept_rejected (st : State) (s i : string) :
  replied (on_emergency_accept st s i) <> Acked AckOk ->
  state (on_emergency_accept st s i) = st /\
  emitted (on_emergency_accept st s i) = [].
Proof.
  unfold on_emergency_accept.
  destruct (JsMap.get s (connections st)) as [k|]; [|auto].
  destruct (negb (isHelper (Conn.role k))); [auto|].
  destruct (JsMap.get i (emergencies st)) as [em|]; [|auto].
  destruct (isClosed (Em.status em)); [auto|].
  destruct (Em.assignedHelper em); [auto|].
  cbn [replied]. congruence.
Qed.

Section Arbitration.
Context `{Host}.

Lemma run_cons (st : State) (e : event) (r : list event) :
  run st (e :: r) =
  (fst (run (state (handle st e)) r),
   replied (handle st e) :: snd (run (state (handle st e)) r)).
Proof.
  cbn [run]. destruct (run (state (handle st e)) r). reflexivity.
Qed.

Lemma run_app (st : State) (l1 l2 : list event) :
  run st (l1 ++ l2) =
  (fst (run (fst (run st l1)) l2),
   (snd (run st l1) ++ snd (run (fst (run st l1)) l2))%list).
Proof.
  revert st. induction l1 as [|e r IH]; intro st.
  - cbn [app run fst snd]. destruct (run st l2). reflexivity.
  - rewrite <- app_comm_cons, !run_cons, IH. reflexivity.
Qed.

(** A run of accepts that are all turned down leaves the stores as
    they were. *)
Lemma run_rejected_accepts (st : State) (i : string) (l : list string) :
  (forall q, In q l ->
     replied (on_emergency_accept st q i) <> Acked AckOk) ->
  run st (accepts i l) =
  (st, map (fun q => replied (on_emergency_accept st q i)) l).
Proof.
  induction l as [|q r IH]; intro R; [reflexivity|].
  unfold accepts in *. cbn [map]. rewrite run_cons. cbn [handle].
  destruct (accept_rejected st q i) as [S _]; [apply R; left; reflexivity|].
  rewrite S, IH by (intros; apply R; right; assumption).
  reflexivity.
Qed.

Lemma guard_side (st : State) (w p i : string) :
  acceptGuard st w i -> ~ acceptGuard st p i -> isHelperParty st p = false.
Proof.
  intros (k & em & _ & _ & E & C1 & C2 & A) N.
  unfold isHelperParty.
  destruct (JsMap.get p (connections st)) as [k'|] eqn:G; [|reflexivity].
  destruct (Conn.role k') eqn:R; [|reflexivity].
  exfalso. apply N. exists k', em. auto 10.
Qed.

Lemma isHelperParty_after_accept (st : State) (w q : string) (k : Conn.t)
    (ems : JsMap.t Em.t) (ips : JsMap.t Z) :
  JsMap.get w (connections st) = Some k ->
  isHelperParty
    (mkState (JsMap.set w (Conn.setAvailable false k) (connections st))
             ems ips) q =
  isHelperParty st q.
Proof.
  intro G. unfold isHelperParty. cbn [connections].
  destruct (String.eqb q w) eqn:E.
  - apply String.eqb_eq in E. subst q. rewrite get_set_same, G. reflexivity.
  - apply String.eqb_neq in E. rewrite get_set_other by exact E. reflexivity.
Qed.

(** C1 (as amended).  An accept succeeds exactly when the caller is a
    registered helper and the request exists, is neither cancelled nor
    resolved and has no assigned helper; an accept that does not
    succeed leaves the stores untouched.  In any sequence of accepts
    for one request, the first caller [w] satisfying the guard becomes
    the assigned helper and the status becomes [accepted]; every later
    accept is turned down without changing the request, with [taken]
    when its caller is a registered helper and [not_helper]
    otherwise. *)
Theorem accept_first_wins (st : State) (emergencyId : string) :
  (forall s,
      (replied (handle st (EmergencyAccept s emergencyId)) = Acked AckOk <->
       acceptGuard st s emergencyId) /\
      (replied (handle st (EmergencyAccept s emergencyId)) <> Acked AckOk ->
       state (handle st (EmergencyAccept s emergencyId)) = st)) /\
  (forall pre w post,
      acceptGuard st w emergencyId ->
      (forall p, In p pre -> ~ acceptGuard st p emergencyId) ->
      exists k em,
        JsMap.get w (connections st) = Some k /\
        JsMap.get emergencyId (emergencies st) = Some em /\
        JsMap.get emergencyId
          (emergencies (fst (run st (accepts emergencyId (pre ++ [w]))))) =
        Some (assignedTo w k em) /\
        JsMap.get emergencyId
          (emergencies
             (fst (run st (accepts emergencyId (pre ++ w :: post))))) =
        Some (assignedTo w k em) /\
        snd (run st (accepts emergencyId (pre ++ w :: post))) =
        (map (fun _ => Acked (AckError not_helper)) pre
         ++ Acked AckOk
         :: map (fun q =>
                   Acked (AckError
                            (if isHelperParty st q then taken
                             else not_helper))) post)%list).
Proof.
  split.
  { intro s. cbn [handle]. split; [apply accept_ok_iff|].
    intro N. apply accept_rejected. exact N. }
  intros pre w post G Npre.
  pose proof G as (k & em & Gk & R & Ge & C1 & C2 & A).
  assert (C : isClosed (Em.status em) = false)
    by (apply isClosed_false; auto).
  exists k, em. split; [exact Gk|]. split; [exact Ge|].
  assert (Pre : run st (accepts emergencyId pre) =
                (st, map (fun _ => Acked (AckError not_helper)) pre)).
  { rewrite run_rejected_accepts.
    - f_equal. apply map_ext_in. intros p Ip.
      rewrite accept_not_helper; [reflexivity|].
      eapply guard_side; eauto.
    - intros p Ip. rewrite accept_ok_iff. auto. }
  set (st1 := state (on_emergency_accept st w emergencyId)).
  assert (W : on_emergency_accept st w emergencyId =
              mkOutcome st1 (emitted (on_emergency_accept st w emergencyId))
                        (Acked AckOk)).
  { unfold st1. rewrite (accept_wins st w emergencyId k em); auto. }
  assert (E1 : JsMap.get emergencyId (emergencies st1) =
               Some (assignedTo w k em)).
  { unfold st1. rewrite (accept_wins st w emergencyId k em); auto.
    cbn [state emergencies]. apply get_set_same. }
  assert (Post : forall l,
             run st1 (accepts emergencyId l) =
             (st1,
              map (fun q =>
                     Acked (AckError
                              (if isHelperParty st q then taken
                               else not_helper))) l)).
  { intro l.
    assert (Each : forall q,
               on_emergency_accept st1 q emergencyId =
               reject st1
                 (AckError (if isHelperParty st q then taken else not_helper))).
    { intro q.
      assert (Hq : isHelperParty st1 q = isHelperParty st q).
      { unfold st1. rewrite (accept_wins st w emergencyId k em); auto.
        cbn [state]. apply isHelperParty_after_accept. exact Gk. }
      destruct (isHelperParty st q) eqn:Q.
      - eapply accept_taken; [exact Hq | exact E1 | reflexivity | reflexivity].
      - apply accept_not_helper. exact Hq. }
    rewrite run_rejected_accepts.
    - f_equal. apply map_ext. intro q. rewrite Each. reflexivity.
    - intros q _. rewrite Each. cbn [reject replied].
      destruct (isHelperParty st q); discriminate. }
  assert (Step : forall l,
             run st (accepts emergencyId (pre ++ w :: l)) =
             (fst (run st1 (accepts emergencyId l)),
              (map (fun _ => Acked (AckError not_helper)) pre
               ++ Acked AckOk :: snd (run st1 (accepts emergencyId l)))%list)).
  { intro l. unfold accepts. rewrite map_app. fold (accepts emergencyId pre).
    rewrite run_app, Pre. cbn [fst snd map]. rewrite run_cons.
    cbn [handle fst snd]. fold st1. rewrite W. cbn [replied]. reflexivity. }
  split.
  { rewrite Step. cbn [accepts map run fst]. exact E1. }
  split.
  { rewrite Step, Post. cbn [fst]. exact E1. }
  rewrite Step, Post. reflexivity.
Qed.
End Arbitration.

Lemma guard_helper (st : State) (s i : string) :
  acceptGuard st s i -> isHelperParty st s = true.
Proof.
  intros (k & em & G & R & _). unfold isHelperParty. rewrite G, R.
  reflexivity.
Qed.

Lemma h1_may_accept : acceptGuard dispatchedState "h1" "em_abc".
Proof.
  unfold acceptGuard. do 2 eexists.
  split; [reflexivity|]. split; [reflexivity|]. split; [reflexivity|].
  cbn. repeat split; discriminate.
Qed.

(** C1, as stated, fails: after helper h1 has won the request, an
    accept sent by the seeker s1 is turned down with [not_helper], not
    with [taken]. *)
Lemma later_accept_not_taken :
  acceptGuard dispatchedState "h1" "em_abc" /\
  snd (run dispatchedState (accepts "em_abc" ["h1"; "s1"])) =
  [Acked AckOk; Acked (AckError not_helper)] /\
  snd (run dispatchedState (accepts "em_abc" ["h1"; "s1"])) <>
  [Acked AckOk; Acked (AckError taken)].
Proof.
  split; [exact h1_may_accept|].
  split; [vm_compute; reflexivity|].
  vm_compute. discriminate.
Qed.

(** The arbitration at work: the seeker, then h1, h2 and the seeker
    again send an accept for the dispatched request. *)
Lemma accept_first_wins_witness :
  acceptGuard dispatchedState "h1" "em_abc" /\
  (forall p, In p ["s1"] -> ~ acceptGuard dispatchedState p "em_abc") /\
  snd (run dispatchedState (accepts "em_abc" ["s1"; "h1"; "h2"; "s1"])) =
  [Acked (AckError not_helper); Acked AckOk;
   Acked (AckError taken); Acked (AckError not_helper)].
Proof.
  assert (N : forall p, In p ["s1"] ->
                ~ acceptGuard dispatchedState p "em_abc").
  { intros p [<-|[]] G. apply guard_helper in G. vm_compute in G.
    discriminate G. }
  split; [exact h1_may_accept|]. split; [exact N|].
  destruct (proj2 (accept_first_wins dispatchedState "em_abc")
              ["s1"] "h1" ["h2"; "s1"] h1_may_accept N)
    as (k & em & _ & _ & _ & _ & R).
  exact R.
Defined.

Lemma dispatchedState_wellRated : wellRated (connections dispatchedState).
Proof.
  intros s k I. unfold dispatchedState in I. cbn [connections In] in I.
  destruct I as [E|[E|[E|[]]]]; inversion E; reflexivity.
Qed.

(** The ranking of the scenario: both helpers are eligible, at the same
    distance and rating; h2, located last, comes first. *)
Lemma rankHelpers_filter_sort_cap_witness :
  wellRated (connections dispatchedState) /\
  StronglySorted rankOrder
    (rankHelpers (connections dispatchedState) "bike"
       (Fin (130827 # 10000)) (Fin (802707 # 10000))) /\
  map sid
    (rankHelpers (connections dispatchedState) "bike"
       (Fin (130827 # 10000)) (Fin (802707 # 10000))) = ["h2"; "h1"].
Proof.
  split; [exact dispatchedState_wellRated|].
  split; [|vm_compute; reflexivity].
  exact (proj1 (proj2
    (rankHelpers_filter_sort_cap "bike" (Fin (130827 # 10000))
       (Fin (802707 # 10000)) (connections dispatchedState)
       dispatchedState_wellRated))).
Defined.

(** ** Terminal requests *)

(** C2 fails on the code: the cancel and resolve handlers never look
    at the status.  The seeker's cancel of a resolved request is
    acknowledged and turns its status into [cancelled]; the assigned
    helper's resolve of a cancelled request is acknowledged and turns
    its status into [resolved].  Only accept answers [closed]. *)
Theorem closed_request_still_changes :
  (option_map Em.status (JsMap.get "em_abc" (emergencies resolvedState)) =
     Some resolved /\
   replied (handle resolvedState (EmergencyCancel "s1" "em_abc")) =
     Acked AckOk /\
   option_map Em.status
     (JsMap.get "em_abc"
        (emergencies
           (state (handle resolvedState (EmergencyCancel "s1" "em_abc"))))) =
     Some cancelled) /\
  (option_map Em.status (JsMap.get "em_abc" (emergencies cancelledState)) =
     Some cancelled /\
   replied (handle cancelledState (EmergencyResolved "h1" "em_abc")) =
     Acked AckOk /\
   option_map Em.status
     (JsMap.get "em_abc"
        (emergencies
           (state (handle cancelledState (EmergencyResolved "h1" "em_abc"))))) =
     Some resolved) /\
  replied (handle resolvedState (EmergencyAccept "h2" "em_abc")) =
    Acked (AckError closed).
Proof.
  repeat split; vm_compute; reflexivity.
Qed.

(** ** Posting a request *)

Section Posting.
Context `{Host}.
Variables (st : State) (socketId address : string) (payload : jsval).
Variables (now1 now2 now3 : Z) (rnd : string).

Local Abbreviation o :=
  (on_emergency_post st socketId address payload now1 now2 now3 rnd).

Lemma post_not_connected :
  JsMap.get socketId (connections st) = None ->
  o = reject st (AckError not_connected).
Proof.
  intro G. unfold on_emergency_post. rewrite G. reflexivity.
Qed.

Lemma post_not_seeker (k : Conn.t) :
  JsMap.get socketId (connections st) = Some k -> Conn.role k = helper ->
  o = reject st (AckError not_seeker).
Proof.
  intros G R. unfold on_emergency_post. rewrite G, R. reflexivity.
Qed.

Lemma post_too_many (k : Conn.t) :
  JsMap.get socketId (connections st) = Some k -> Conn.role k = seeker ->
  now1 - lastAtOf (ipOf address) (lastEmergencyAtByIP st) < POST_COOLDOWN_MS ->
  o = reject st (AckError too_many_requests).
Proof.
  intros G R L. unfold on_emergency_post. rewrite G, R.
  fold (ipOf address). apply Z.ltb_lt in L. rewrite L. reflexivity.
Qed.

Lemma post_missing_skill (k : Conn.t) :
  JsMap.get socketId (connections st) = Some k -> Conn.role k = seeker ->
  POST_COOLDOWN_MS <= now1 - lastAtOf (ipOf address) (lastEmergencyAtByIP st) ->
  requiredSkillOf payload = "" ->
  o = reject (stamped st address now2) (AckError missing_skill).
Proof.
  intros G R L S. unfold on_emergency_post. rewrite G, R.
  fold (ipOf address). apply Z.ltb_ge in L. rewrite L.
  fold (requiredSkillOf payload). rewrite S. reflexivity.
Qed.

Lemma post_missing_location (k : Conn.t) :
  JsMap.get socketId (connections st) = Some k -> Conn.role k = seeker ->
  POST_COOLDOWN_MS <= now1 - lastAtOf (ipOf address) (lastEmergencyAtByIP st) ->
  requiredSkillOf payload <> "" ->
  numericCoords payload = false ->
  o = reject (stamped st address now2) (AckError missing_location).
Proof.
  intros G R L S C. unfold on_emergency_post. rewrite G, R.
  fold (ipOf address). apply Z.ltb_ge in L. rewrite L.
  fold (requiredSkillOf payload).
  destruct (requiredSkillOf payload) eqn:Q; [congruence|]. cbn [isEmpty].
  fold (locationOf payload). unfold numericCoords in C.
  destruct (prop "lat" (locationOf payload));
    destruct (prop "lng" (locationOf payload));
    try reflexivity; discriminate C.
Qed.

Lemma post_created (k : Conn.t) :
  JsMap.get socketId (connections st) = Some k -> Conn.role k = seeker ->
  POST_COOLDOWN_MS <= now1 - lastAtOf (ipOf address) (lastEmergencyAtByIP st) ->
  requiredSkillOf payload <> "" ->
  numericCoords payload = true ->
  let em := newRequest socketId payload now3 rnd in
  o = mkOutcome
        (mkState (connections st)
           (JsMap.set (Em.id em) (fst (dispatchEmergency (connections st) em))
              (JsMap.set (Em.id em) em (emergencies st)))
           (JsMap.set (ipOf address) now2 (lastEmergencyAtByIP st)))
        (snd (dispatchEmergency (connections st) em))
        (Acked (AckPosted (Em.id em))).
Proof.
  intros G R L S C em. unfold on_emergency_post. rewrite G, R.
  fold (ipOf address). apply Z.ltb_ge in L. rewrite L.
  fold (requiredSkillOf payload).
  destruct (requiredSkillOf payload) eqn:Q; [congruence|]. cbn [isEmpty].
  fold (locationOf payload). fold (noteOf payload).
  unfold numericCoords in C. subst em. unfold newRequest. rewrite Q.
  destruct (prop "lat" (locationOf payload)); try discriminate C.
  destruct (prop "lng" (locationOf payload)); try discriminate C.
  cbn [numberOf connections emergencies lastEmergencyAtByIP Em.id].
  destruct (dispatchEmergency _ _) as [em' out]. reflexivity.
Qed.
End Posting.

Lemma lastAtOf_set (ip : string) (t : Z) (m : JsMap.t Z) :
  lastAtOf ip (JsMap.set ip t m) = t.
Proof.
  unfold lastAtOf. rewrite get_set_same.
  destruct (Z.eqb t 0) eqn:E; [|reflexivity].
  apply Z.eqb_eq in E. congruence.
Qed.

Section PostingRules.
Context `{Host}.
Variables (st : State) (socketId address : string) (payload : jsval).
Variables (now1 now2 now3 : Z) (rnd : string).

Local Abbreviation o :=
  (on_emergency_post st socketId address payload now1 now2 now3 rnd).

(** C3 (as amended).  A post that is turned down for a missing
    capability or for missing or non-numeric coordinates creates no
    request, changes no party and sends nothing; the one store it
    changes is the cooldown map, in which the caller's address is
    stamped with the current time. *)
Theorem rejected_post_frame :
  replied o = Acked (AckError missing_skill) \/
  replied o = Acked (AckError missing_location) ->
  connections (state o) = connections st /\
  emergencies (state o) = emergencies st /\
  emitted o = [] /\
  lastEmergencyAtByIP (state o) =
  JsMap.set (ipOf address) now2 (lastEmergencyAtByIP st).
Proof.
  destruct (JsMap.get socketId (connections st)) as [k|] eqn:G.
  2:{ rewrite post_not_connected by exact G. cbn.
      intros [E|E]; discriminate E. }
  destruct (Conn.role k) eqn:R.
  { erewrite post_not_seeker by eassumption.
    cbn. intros [E|E]; discriminate E. }
  destruct (Z.lt_ge_cases
              (now1 - lastAtOf (ipOf address) (lastEmergencyAtByIP st))
              POST_COOLDOWN_MS) as [L|L].
  { erewrite post_too_many by eassumption.
    cbn. intros [E|E]; discriminate E. }
  destruct (string_dec (requiredSkillOf payload) "") as [S|S].
  { erewrite post_missing_skill by eassumption.
    cbn. auto. }
  destruct (numericCoords payload) eqn:C.
  - erewrite post_created by eassumption.
    cbn. intros [E|E]; discriminate E.
  - erewrite post_missing_location by eassumption.
    cbn. auto.
Qed.

(** C9.  A post creates a request exactly when the caller is a
    connected seeker, the caller's address is out of its cooldown
    window, the normalized capability is not empty and both coordinates
    are numbers.  The request is created in status [pending], stored
    under its id, and handed to the dispatch step.  Each failing guard,
    in the order of the handler, yields its error and creates no
    request.  After a successful post, a post by a connected seeker
    from the same address within the cooldown window yields
    [too_many_requests] and changes nothing. *)
Theorem post_creates_iff_guards :
  ((exists id, replied o = Acked (AckPosted id)) <->
   postGuard st socketId address payload now1) /\
  (postGuard st socketId address payload now1 ->
   let em := newRequest socketId payload now3 rnd in
   Em.status em = pending /\
   Em.assignedHelper em = None /\
   replied o = Acked (AckPosted (Em.id em)) /\
   emergencies (state o) =
   JsMap.set (Em.id em) (fst (dispatchEmergency (connections st) em))
     (JsMap.set (Em.id em) em (emergencies st))) /\
  (JsMap.get socketId (connections st) = None ->
   replied o = Acked (AckError not_connected) /\ state o = st) /\
  (forall k,
      JsMap.get socketId (connections st) = Some k ->
      (Conn.role k = helper ->
       replied o = Acked (AckError not_seeker) /\ state o = st) /\
      (Conn.role k = seeker ->
       now1 - lastAtOf (ipOf address) (lastEmergencyAtByIP st)
         < POST_COOLDOWN_MS ->
       replied o = Acked (AckError too_many_requests) /\ state o = st) /\
      (Conn.role k = seeker ->
       POST_COOLDOWN_MS
         <= now1 - lastAtOf (ipOf address) (lastEmergencyAtByIP st) ->
       requiredSkillOf payload = "" ->
       replied o = Acked (AckError missing_skill) /\
       emergencies (state o) = emergencies st) /\
      (Conn.role k = seeker ->
       POST_COOLDOWN_MS
         <= now1 - lastAtOf (ipOf address) (lastEmergencyAtByIP st) ->
       requiredSkillOf payload <> "" ->
       numericCoords payload = false ->
       replied o = Acked (AckError missing_location) /\
       emergencies (state o) = emergencies st)) /\
  (postGuard st socketId address payload now1 ->
   forall caller payload' later later2 later3 rnd' k,
     JsMap.get caller (connections st) = Some k ->
     Conn.role k = seeker ->
     later - now2 < POST_COOLDOWN_MS ->
     on_emergency_post (state o) caller address payload'
       later later2 later3 rnd' =
     reject (state o) (AckError too_many_requests)).
Proof.
  assert (Ok : postGuard st socketId address payload now1 ->
               let em := newRequest socketId payload now3 rnd in
               o = mkOutcome
                     (mkState (connections st)
                        (JsMap.set (Em.id em)
                           (fst (dispatchEmergency (connections st) em))
                           (JsMap.set (Em.id em) em (emergencies st)))
                        (JsMap.set (ipOf address) now2
                           (lastEmergencyAtByIP st)))
                     (snd (dispatchEmergency (connections st) em))
                     (Acked (AckPosted (Em.id em)))).
  { intros ((k & G & R) & L & S & C).
    eapply post_created; eassumption. }
  split.
  { split; [|intro P; rewrite (Ok P); eexists; reflexivity].
    intros [id E].
    destruct (JsMap.get socketId (connections st)) as [k|] eqn:G.
    2:{ rewrite post_not_connected in E by exact G. discriminate E. }
    destruct (Conn.role k) eqn:R.
    { erewrite post_not_seeker in E by eassumption.
      discriminate E. }
    destruct (Z.lt_ge_cases
                (now1 - lastAtOf (ipOf address) (lastEmergencyAtByIP st))
                POST_COOLDOWN_MS) as [L|L].
    { erewrite post_too_many in E by eassumption.
      discriminate E. }
    destruct (string_dec (requiredSkillOf payload) "") as [S|S].
    { erewrite post_missing_skill in E by eassumption.
      discriminate E. }
    destruct (numericCoords payload) eqn:C.
    - unfold postGuard. split; [exists k; auto|]. auto.
    - erewrite post_missing_location in E by eassumption.
      discriminate E. }
  split.
  { intros P em. rewrite (Ok P). cbn. auto. }
  split.
  { intro G. rewrite post_not_connected by exact G. cbn. auto. }
  split.
  { intros k G. repeat split; intros.
    - erewrite post_not_seeker by eassumption. reflexivity.
    - erewrite post_not_seeker by eassumption. reflexivity.
    - erewrite post_too_many by eassumption. reflexivity.
    - erewrite post_too_many by eassumption. reflexivity.
    - erewrite post_missing_skill by eassumption.
      reflexivity.
    - erewrite post_missing_skill by eassumption.
      reflexivity.
    - erewrite post_missing_location by eassumption.
      reflexivity.
    - erewrite post_missing_location by eassumption.
      reflexivity. }
  intros P caller payload' later later2 later3 rnd' k G R L.
  rewrite (Ok P). cbn zeta.
  apply (post_too_many _ _ _ _ _ _ _ _ k).
  - exact G.
  - exact R.
  - cbn [state lastEmergencyAtByIP]. rewrite lastAtOf_set. exact L.
Qed.
End PostingRules.

(** C3, as stated, fails: a post without a capability, and a post
    without coordinates, are turned down and yet leave a new stamp in
    the cooldown map. *)
Lemma rejected_post_stamps_cooldown :
  (replied (on_emergency_post dispatchedState "s1" "10.0.0.1" (JObj [])
              200000 200001 200002 "xyz") =
     Acked (AckError missing_skill) /\
   lastEmergencyAtByIP
     (state (on_emergency_post dispatchedState "s1" "10.0.0.1" (JObj [])
               200000 200001 200002 "xyz")) <>
   lastEmergencyAtByIP dispatchedState) /\
  (replied (on_emergency_post dispatchedState "s1" "10.0.0.1"
              (JObj [("requiredSkill", JStr "bike")])
              200000 200001 200002 "xyz") =
     Acked (AckError missing_location) /\
   lastEmergencyAtByIP
     (state (on_emergency_post dispatchedState "s1" "10.0.0.1"
               (JObj [("requiredSkill", JStr "bike")])
               200000 200001 200002 "xyz")) <>
   lastEmergencyAtByIP dispatchedState).
Proof.
  repeat split; vm_compute; try reflexivity; discriminate.
Qed.

(** A post without a capability, sent once the cooldown has elapsed. *)
Lemma rejected_post_frame_witness :
  (replied (on_emergency_post dispatchedState "s1" "10.0.0.1" (JObj [])
              200000 200001 200002 "xyz") =
     Acked (AckError missing_skill) \/
   replied (on_emergency_post dispatchedState "s1" "10.0.0.1" (JObj [])
              200000 200001 200002 "xyz") =
     Acked (AckError missing_location)) /\
  emergencies
    (state (on_emergency_post dispatchedState "s1" "10.0.0.1" (JObj [])
              200000 200001 200002 "xyz")) =
  emergencies dispatchedState /\
  lastEmergencyAtByIP
    (state (on_emergency_post dispatchedState "s1" "10.0.0.1" (JObj [])
              200000 200001 200002 "xyz")) = [("10.0.0.1", 200001)].
Proof.
  assert (R : replied (on_emergency_post dispatchedState "s1" "10.0.0.1"
                         (JObj []) 200000 200001 200002 "xyz") =
                Acked (AckError missing_skill) \/
              replied (on_emergency_post dispatchedState "s1" "10.0.0.1"
                         (JObj []) 200000 200001 200002 "xyz") =
                Acked (AckError missing_location))
    by (left; vm_compute; reflexivity).
  split; [exact R|].
  destruct (rejected_post_frame dispatchedState "s1" "10.0.0.1" (JObj [])
              200000 200001 200002 "xyz" R) as (_ & E & _ & L).
  split; [exact E|]. rewrite L. reflexivity.
Defined.

Lemma s1_may_post :
  postGuard dispatchedState "s1" "10.0.0.1" bikeRequest 200000.
Proof.
  unfold postGuard. split; [eexists; split; reflexivity|].
  split; [vm_compute; discriminate|].
  split; [vm_compute; discriminate | reflexivity].
Qed.

(** The seeker posts again after the cooldown, then once more three
    seconds later. *)
Lemma post_creates_iff_guards_witness :
  postGuard dispatchedState "s1" "10.0.0.1" bikeRequest 200000 /\
  replied (on_emergency_post dispatchedState "s1" "10.0.0.1" bikeRequest
             200000 200001 200002 "xyz") = Acked (AckPosted "em_xyz") /\
  replied
    (on_emergency_post
       (state (on_emergency_post dispatchedState "s1" "10.0.0.1" bikeRequest
                 200000 200001 200002 "xyz"))
       "s1" "10.0.0.1" bikeRequest 203000 203001 203002 "uvw") =
  Acked (AckError too_many_requests).
Proof.
  split; [exact s1_may_post|].
  destruct (post_creates_iff_guards dispatchedState "s1" "10.0.0.1"
              bikeRequest 200000 200001 200002 "xyz")
    as (_ & Created & _ & _ & Second).
  split.
  - destruct (Created s1_may_post) as (_ & _ & E & _). exact E.
  - erewrite (Second s1_may_post "s1" bikeRequest 203000 203001 203002 "uvw");
      [reflexivity | reflexivity | reflexivity | reflexivity].
Defined.

(** ** Resolving a request *)

Section Resolving.
Variables (st : State) (socketId emergencyId : string).

Local Abbreviation o := (on_emergency_resolved st socketId emergencyId).

(** C6 (as amended).  A resolve succeeds only when the caller is a
    registered party and is the assigned helper of the request.  For a
    request in status [accepted] whose assigned helper is the caller,
    it succeeds: the caller's availability becomes true, the status
    becomes [resolved] and the seeker is notified.  A registered caller
    that is not the assigned helper of an existing request gets
    [not_assigned_helper]; an unregistered caller, or an unknown
    request, gets a failure without an error code; in both cases
    nothing is changed. *)
Theorem resolve_rules :
  (replied o = Acked AckOk ->
   exists k em h,
     JsMap.get socketId (connections st) = Some k /\
     JsMap.get emergencyId (emergencies st) = Some em /\
     Em.assignedHelper em = Some h /\
     Helper.socketId h = socketId) /\
  (forall k em h,
      JsMap.get socketId (connections st) = Some k ->
      JsMap.get emergencyId (emergencies st) = Some em ->
      Em.status em = accepted ->
      Em.assignedHelper em = Some h ->
      Helper.socketId h = socketId ->
      replied o = Acked AckOk /\
      connections (state o) =
        JsMap.set socketId (Conn.setAvailable true k) (connections st) /\
      emergencies (state o) =
        JsMap.set emergencyId (Em.setStatus resolved em) (emergencies st) /\
      lastEmergencyAtByIP (state o) = lastEmergencyAtByIP st /\
      emitted o = [(Em.seekerSocketId em, EmitResolved emergencyId)]) /\
  (forall k em,
      JsMap.get socketId (connections st) = Some k ->
      JsMap.get emergencyId (emergencies st) = Some em ->
      (forall h, Em.assignedHelper em = Some h ->
                 Helper.socketId h <> socketId) ->
      o = reject st (AckError not_assigned_helper)) /\
  (JsMap.get socketId (connections st) = None \/
   JsMap.get emergencyId (emergencies st) = None ->
   o = reject st AckFail).
Proof.
  unfold on_emergency_resolved.
  split; [|split; [|split]].
  - destruct (JsMap.get socketId (connections st)) as [k|];
      [|discriminate].
    destruct (JsMap.get emergencyId (emergencies st)) as [em|];
      [|discriminate].
    destruct (Em.assignedHelper em) as [h|] eqn:A; [|discriminate].
    destruct (String.eqb (Helper.socketId h) socketId) eqn:E;
      [|discriminate].
    intros _. apply String.eqb_eq in E. exists k, em, h. auto.
  - intros k em h G E _ A Q. rewrite G, E, A.
    apply String.eqb_eq in Q. rewrite Q. cbn. auto.
  - intros k em G E N. rewrite G, E.
    destruct (Em.assignedHelper em) as [h|]; [|reflexivity].
    specialize (N h eq_refl). apply String.eqb_neq in N. rewrite N.
    reflexivity.
  - intros [G|G]; rewrite G; [reflexivity|].
    destruct (JsMap.get socketId (connections st)); reflexivity.
Qed.
End Resolving.

(** C6, as stated, fails: the request is dispatched, not accepted, and
    a caller that never registered asks to resolve it; the answer is a
    failure without an error code, not [not_assigned_helper]. *)
Lemma resolve_by_stranger_has_no_error_code :
  option_map Em.status (JsMap.get "em_abc" (emergencies dispatchedState)) =
    Some dispatched /\
  replied (on_emergency_resolved dispatchedState "ghost" "em_abc") =
    Acked AckFail /\
  replied (on_emergency_resolved dispatchedState "ghost" "em_abc") <>
    Acked (AckError not_assigned_helper).
Proof.
  repeat split; vm_compute; try reflexivity; discriminate.
Qed.

(** h2 and then h1 try to resolve the request h1 accepted. *)
Lemma resolve_rules_witness :
  JsMap.get "h2" (connections acceptedState) <> None /\
  replied (on_emergency_resolved acceptedState "h2" "em_abc") =
    Acked (AckError not_assigned_helper) /\
  replied (on_emergency_resolved acceptedState "h1" "em_abc") = Acked AckOk.
Proof.
  split; [vm_compute; discriminate|].
  split.
  - destruct (resolve_rules acceptedState "h2" "em_abc") as (_ & _ & N & _).
    erewrite N; [reflexivity | reflexivity | reflexivity |].
    intros h E. vm_compute in E. injection E as <-. vm_compute. discriminate.
  - destruct (resolve_rules acceptedState "h1" "em_abc") as (_ & S & _).
    edestruct S as (R & _); [reflexivity | reflexivity | reflexivity
                             | reflexivity | reflexivity | exact R].
Defined.

(** ** Losing the assigned helper *)

Lemma heldBy_true (socketId : string) (em : Em.t) :
  heldBy socketId em = true <->
  (exists h, Em.assignedHelper em = Some h /\ Helper.socketId h = socketId) /\
  Em.status em = accepted.
Proof.
  unfold heldBy. destruct (Em.assignedHelper em) as [h|].
  - rewrite andb_true_iff, String.eqb_eq. split.
    + intros [E S]. split; [exists h; auto|].
      destruct (Em.status em); try discriminate S; reflexivity.
    + intros [(h' & E & Q) S]. injection E as <-. rewrite S. auto.
  - split; [discriminate|]. intros [(h & E & _) _]. discriminate E.
Qed.

Lemma In_get_unique {V : Type} (m : JsMap.t V) (key : string) (v : V) :
  NoDup (map fst m) -> In (key, v) m -> JsMap.get key m = Some v.
Proof.
  induction m as [|[k0 v0] r IH]; cbn [map fst In JsMap.get];
    intros N I; [contradiction|].
  inversion N as [|? ? Nk Nr]; subst.
  destruct I as [E|I].
  - injection E as -> ->. rewrite String.eqb_refl. reflexivity.
  - destruct (String.eqb key k0) eqn:Q.
    + apply String.eqb_eq in Q. subst k0. exfalso. apply Nk.
      apply in_map_iff. exists (key, v). auto.
    + apply IH; assumption.
Qed.

Section HelperLoss.
Context `{Host}.

Lemma reopen_step (socketId : string) (conns : JsMap.t Conn.t)
    (seen : JsMap.t Em.t) (out : list emission) (key : string) (em : Em.t) :
  reopen socketId conns (seen, out) (key, em) =
  ((seen ++ [(key, if heldBy socketId em
                   then fst (reopened conns em) else em)])%list,
   (out ++ (if heldBy socketId em
            then snd (reopened conns em) else []))%list).
Proof.
  unfold reopen, reopened. destruct (heldBy socketId em).
  - destruct (dispatchEmergency conns _). reflexivity.
  - rewrite app_nil_r. reflexivity.
Qed.

Lemma reopen_fold (socketId : string) (conns : JsMap.t Conn.t)
    (l seen : JsMap.t Em.t) (out : list emission) :
  fold_left (reopen socketId conns) l (seen, out) =
  ((seen ++
    map (fun e => (fst e,
                   if heldBy socketId (snd e)
                   then fst (reopened conns (snd e)) else snd e)) l)%list,
   (out ++
    flat_map (fun e => if heldBy socketId (snd e)
                       then snd (reopened conns (snd e)) else []) l)%list).
Proof.
  revert seen out. induction l as [|[key em] r IH]; intros seen out;
    cbn [fold_left].
  - cbn [map flat_map]. rewrite !app_nil_r. reflexivity.
  - rewrite reopen_step, IH. cbn [map flat_map fst snd].
    rewrite <- !app_assoc. reflexivity.
Qed.

Lemma on_disconnect_registered (st : State) (socketId : string) (k : Conn.t) :
  JsMap.get socketId (connections st) = Some k ->
  on_disconnect st socketId =
  mkOutcome
    (mkState (JsMap.delete socketId (connections st))
       (map (fun e => (fst e,
                       if heldBy socketId (snd e)
                       then fst (reopened (connections st) (snd e))
                       else snd e)) (emergencies st))
       (lastEmergencyAtByIP st))
    (flat_map (fun e => if heldBy socketId (snd e)
                        then snd (reopened (connections st) (snd e))
                        else []) (emergencies st))
    Silent.
Proof.
  intro G. unfold on_disconnect. rewrite G, reopen_fold. reflexivity.
Qed.

Lemma reopened_shape (conns : JsMap.t Conn.t) (em : Em.t) :
  Em.assignedHelper (fst (reopened conns em)) = None /\
  (targetsOf conns em = [] -> Em.status (fst (reopened conns em)) = pending) /\
  (targetsOf conns em <> [] ->
   Em.status (fst (reopened conns em)) = dispatched).
Proof.
  unfold reopened. rewrite dispatchEmergency_unfold. cbn zeta. cbn [fst].
  change (targetsOf conns (Em.setStatus pending (Em.setAssignedHelper None em)))
    with (targetsOf conns em).
  destruct (pinged_frame (targetsOf conns em)
              (Em.setStatus pending (Em.setAssignedHelper None em)))
    as (_ & _ & _ & _ & _ & _ & _ & St & A).
  destruct (targetsOf conns em) as [|t r] eqn:T.
  - cbn [List.length Nat.ltb Nat.leb]. rewrite St, A. cbn. split; [auto|].
    split; [auto | congruence].
  - cbn [List.length Nat.ltb Nat.leb Em.setStatus Em.assignedHelper Em.status].
    rewrite A. cbn. split; [auto|]. split; [discriminate | auto].
Qed.

(** C7.  When a registered party disconnects, every request in status
    [accepted] whose assigned helper is that party has its assigned
    helper cleared and its status set to [pending], and is dispatched
    again at once, with a ranking computed on the registry of that
    moment; every other request is left as it was.  The party's entry
    is then removed from the registry. *)
Theorem disconnect_reopens (st : State) (socketId : string) (k : Conn.t) :
  JsMap.get socketId (connections st) = Some k ->
  let o := on_disconnect st socketId in
  let conns := connections st in
  connections (state o) = JsMap.delete socketId conns /\
  lastEmergencyAtByIP (state o) = lastEmergencyAtByIP st /\
  emergencies (state o) =
    map (fun e => (fst e,
                   if heldBy socketId (snd e)
                   then fst (dispatchEmergency conns
                               (Em.setStatus pending
                                  (Em.setAssignedHelper None (snd e))))
                   else snd e)) (emergencies st) /\
  emitted o =
    flat_map (fun e => if heldBy socketId (snd e)
                       then snd (dispatchEmergency conns
                                   (Em.setStatus pending
                                      (Em.setAssignedHelper None (snd e))))
                       else []) (emergencies st) /\
  (forall em,
      heldBy socketId em = true <->
      (exists h, Em.assignedHelper em = Some h /\
                 Helper.socketId h = socketId) /\
      Em.status em = accepted) /\
  (forall em,
      let em' :=
        fst (dispatchEmergency conns
               (Em.setStatus pending (Em.setAssignedHelper None em))) in
      Em.assignedHelper em' = None /\
      (targetsOf conns em = [] -> Em.status em' = pending) /\
      (targetsOf conns em <> [] -> Em.status em' = dispatched)).
Proof.
  intros G o conns. subst o conns.
  rewrite (on_disconnect_registered st socketId k G).
  cbn [state emitted connections emergencies lastEmergencyAtByIP].
  split; [reflexivity|]. split; [reflexivity|].
  split; [reflexivity|]. split; [reflexivity|].
  split; [intro em; apply heldBy_true|].
  intro em. apply reopened_shape.
Qed.
End HelperLoss.

(** h1 disconnects while holding the request: it is dispatched again,
    to h2 alone. *)
Lemma disconnect_reopens_witness :
  JsMap.get "h1" (connections acceptedState) <> None /\
  JsMap.get "h1" (connections (state (on_disconnect acceptedState "h1"))) =
    None /\
  option_map (fun em => (Em.status em, Em.assignedHelper em))
    (JsMap.get "em_abc"
       (emergencies (state (on_disconnect acceptedState "h1")))) =
    Some (dispatched, None) /\
  map fst (emitted (on_disconnect acceptedState "h1")) = ["h2"; "s1"].
Proof.
  split; [vm_compute; discriminate|].
  edestruct (disconnect_reopens acceptedState "h1") as (C & _ & E & O & _);
    [reflexivity|].
  rewrite C, E, O. repeat split; vm_compute; reflexivity.
Defined.

Section LeavingHelper.
Context `{Host}.

Lemma unavailable_not_ranked (conns : JsMap.t Conn.t) (leaver : string)
    (k : Conn.t) (skill : string) (lat lng : num) :
  NoDup (map fst conns) ->
  JsMap.get leaver conns = Some k ->
  Conn.available k = false ->
  ~ In leaver (map sid (rankHelpers conns skill lat lng)).
Proof.
  intros N G A I. apply in_map_iff in I. destruct I as (x & S & I).
  apply rankHelpers_member in I. destruct I as (I & _ & Av & _).
  rewrite S in I. rewrite (In_get_unique conns leaver (c x) N I) in G.
  injection G as <-. congruence.
Qed.

(** C10 (as amended).  A successful accept sets the accepting
    helper's availability to false.  When a party whose availability
    is false at that moment disconnects, it is in no ranking computed
    for the requests that are dispatched again, is no target of those
    rounds and is sent no dispatch notification, although its registry
    entry is removed only after the rounds have run. *)
Theorem unavailable_leaver_not_pinged (st : State) (leaver : string)
    (k : Conn.t) :
  NoDup (map fst (connections st)) ->
  JsMap.get leaver (connections st) = Some k ->
  Conn.available k = false ->
  (forall skill lat lng,
      ~ In leaver (map sid (rankHelpers (connections st) skill lat lng))) /\
  (forall em, ~ In leaver (map sid (targetsOf (connections st) em))) /\
  (forall i s p x n t,
      ~ In (leaver, EmitDispatch i s p x n t)
           (emitted (on_disconnect st leaver))) /\
  JsMap.get leaver (connections (state (on_disconnect st leaver))) = None /\
  (forall st0 i,
      replied (on_emergency_accept st0 leaver i) = Acked AckOk ->
      exists k',
        JsMap.get leaver
          (connections (state (on_emergency_accept st0 leaver i))) = Some k' /\
        Conn.available k' = false).
Proof.
  intros N G A.
  assert (T : forall em, ~ In leaver (map sid (targetsOf (connections st) em))).
  { intros em I. apply in_map_iff in I. destruct I as (x & S & I).
    unfold targetsOf in I. apply firstn_subset in I.
    eapply (unavailable_not_ranked (connections st) leaver k); eauto.
    apply in_map_iff. exists x. eauto. }
  split; [intros; eapply unavailable_not_ranked; eauto|].
  split; [exact T|].
  split.
  { intros i s p x n t I.
    rewrite (on_disconnect_registered st leaver k G) in I. cbn [emitted] in I.
    apply in_flat_map in I. destruct I as ([key em] & _ & I). cbn [snd] in I.
    destruct (heldBy leaver em); [|contradiction].
    unfold reopened in I. rewrite dispatchEmergency_unfold in I.
    cbn zeta in I. cbn [snd] in I. apply in_app_or in I.
    destruct I as [I|[I|[]]]; [|discriminate I].
    apply in_map_iff in I. destruct I as (y & E & I).
    injection E as E _. eapply T. apply in_map_iff. exists y. eauto. }
  split.
  { rewrite (on_disconnect_registered st leaver k G). cbn [state connections].
    clear G A T. induction (connections st) as [|[k0 v0] r IH];
      cbn [JsMap.delete]; [reflexivity|].
    cbn [map fst] in N. inversion N as [|? ? Nk Nr]; subst.
    destruct (String.eqb leaver k0) eqn:E.
    - apply String.eqb_eq in E. subst k0.
      destruct (JsMap.get leaver r) as [v|] eqn:Gr; [|reflexivity].
      exfalso. apply Nk. clear - Gr.
      induction r as [|[k1 v1] r IH]; cbn [JsMap.get] in Gr; [discriminate|].
      cbn [map fst In]. destruct (String.eqb leaver k1) eqn:E.
      + apply String.eqb_eq in E. auto.
      + auto.
    - cbn [JsMap.get]. rewrite E. apply IH. exact Nr. }
  intros st0 i R. apply accept_ok_iff in R.
  destruct R as (k0 & em & G0 & R0 & E0 & C1 & C2 & A0).
  rewrite (accept_wins st0 leaver i k0 em); auto;
    [|apply isClosed_false; auto].
  cbn [state connections]. rewrite get_set_same. eexists. split; reflexivity.
Qed.
End LeavingHelper.

(** C10, as stated, fails: helper h1 accepted the request, switched
    its availability back on and then disconnected; the round that
    follows ranks h1, adds it to the targets and sends it a dispatch
    notification. *)
Lemma leaver_pinged_again :
  option_map (fun em => (Em.status em, Em.assignedHelper em))
    (JsMap.get "em_abc" (emergencies availableAgainState)) =
    Some (accepted, Some (Helper.mk "h1" "Asha")) /\
  map sid
    (rankHelpers (connections availableAgainState) "bike"
       (Fin (130827 # 10000)) (Fin (802707 # 10000))) = ["h2"; "h1"] /\
  map fst (emitted (on_disconnect availableAgainState "h1")) =
    ["h2"; "h1"; "s1"] /\
  In ("h1",
      EmitDispatch "em_abc" "bike"
        (Pt.mk (Fin (130827 # 10000)) (Fin (802707 # 10000)))
        (Fin 0) "" 100002)
     (emitted (on_disconnect availableAgainState "h1")).
Proof.
  repeat split; try (vm_compute; reflexivity).
  vm_compute. right. left. reflexivity.
Qed.

(** h1, unavailable since its accept, is not ranked. *)
Lemma unavailable_leaver_not_pinged_witness :
  NoDup (map fst (connections acceptedState)) /\
  option_map Conn.available (JsMap.get "h1" (connections acceptedState)) =
    Some false /\
  ~ In "h1"
      (map sid
         (rankHelpers (connections acceptedState) "bike"
            (Fin (130827 # 10000)) (Fin (802707 # 10000)))).
Proof.
  assert (N : NoDup (map fst (connections acceptedState))).
  { vm_compute. repeat constructor; cbn [In]; intuition discriminate. }
  split; [exact N|]. split; [reflexivity|].
  edestruct (unavailable_leaver_not_pinged acceptedState "h1") as (R & _);
    [exact N | reflexivity | reflexivity | apply R].
Defined.

(** ** The handshake *)

(** C8 fails on the code.  The handshake lower-cases the capability
    tags but does not trim them, whereas the post handler trims the
    required capability: the tag " Bike " is stored as " bike " and is
    never matched by a request for "bike".  And the handshake does not
    always succeed: a tag that is not a string makes it raise, and no
    party is stored. *)
Theorem hello_keeps_blanks_and_may_raise :
  option_map Conn.skills
    (JsMap.get "h9"
       (connections
          (state (on_hello initial "h9"
                    (JObj [("role", JStr "helper");
                           ("skills", JArr [JStr " Bike "])]))))) =
    Some [" bike "] /\
  requiredSkillOf (JObj [("requiredSkill", JStr " Bike ")]) = "bike" /\
  JsSet.has "bike" [" bike "] = false /\
  replied (on_hello initial "h9"
             (JObj [("role", JStr "helper");
                    ("skills", JArr [JNum (Fin 1)])])) = Threw /\
  state (on_hello initial "h9"
           (JObj [("role", JStr "helper");
                  ("skills", JArr [JNum (Fin 1)])])) = initial.
Proof.
  repeat split; vm_compute; reflexivity.
Qed.

(** ** What every reachable registry satisfies *)

Section RegistryFacts.

Lemma get_In {V : Type} (m : JsMap.t V) (key : string) (v : V) :
  JsMap.get key m = Some v -> In (key, v) m.
Proof.
  induction m as [|[k0 v0] r IH]; cbn [JsMap.get In]; [discriminate|].
  destruct (String.eqb key k0) eqn:E.
  - apply String.eqb_eq in E. intro Q. injection Q as <-. subst. auto.
  - auto.
Qed.

Lemma set_In {V : Type} (m : JsMap.t V) (key : string) (v : V)
    (e : string * V) :
  In e (JsMap.set key v m) -> e = (key, v) \/ In e m.
Proof.
  induction m as [|[k0 v0] r IH]; cbn [JsMap.set In].
  - intros [E|[]]. left. symmetry. exact E.
  - destruct (String.eqb key k0); cbn [In].
    + intros [E|I]; [left; symmetry; exact E | right; right; exact I].
    + intros [E|I]; [right; left; exact E|].
      destruct (IH I) as [Q|Q]; [left; exact Q | right; right; exact Q].
Qed.

Lemma delete_In {V : Type} (m : JsMap.t V) (key : string) (e : string * V) :
  In e (JsMap.delete key m) -> In e m.
Proof.
  induction m as [|[k0 v0] r IH]; cbn [JsMap.delete In]; [tauto|].
  destruct (String.eqb key k0); cbn [In]; tauto.
Qed.

Lemma set_unique {V : Type} (m : JsMap.t V) (key : string) (v : V) :
  NoDup (map fst m) -> NoDup (map fst (JsMap.set key v m)).
Proof.
  induction m as [|[k0 v0] r IH]; cbn [JsMap.set map fst]; intro N.
  - repeat constructor. intros [].
  - inversion N as [|? ? Nk Nr]; subst.
    destruct (String.eqb key k0) eqn:E; cbn [map fst].
    + apply String.eqb_eq in E. subst k0. constructor; assumption.
    + constructor; [|apply IH; assumption].
      intro I. apply in_map_iff in I. destruct I as ([k1 v1] & Q & I).
      cbn [fst] in Q. subst k1. apply set_In in I. destruct I as [I|I].
      * injection I as -> _. rewrite String.eqb_refl in E. discriminate E.
      * apply Nk. apply in_map_iff. exists (k0, v1). auto.
Qed.

Lemma delete_unique {V : Type} (m : JsMap.t V) (key : string) :
  NoDup (map fst m) -> NoDup (map fst (JsMap.delete key m)).
Proof.
  induction m as [|[k0 v0] r IH]; cbn [JsMap.delete map fst]; intro N;
    [constructor|].
  inversion N as [|? ? Nk Nr]; subst.
  destruct (String.eqb key k0); [assumption|]. cbn [map fst].
  constructor; [|apply IH; assumption].
  intro I. apply in_map_iff in I. destruct I as ([k1 v1] & Q & I).
  cbn [fst] in Q. subst k1. apply delete_In in I.
  apply Nk. apply in_map_iff. exists (k0, v1). auto.
Qed.

Lemma truthy_not_NaN (n : num) : Num.truthy n = true -> Num.isNaN n = false.
Proof. destruct n; cbn; congruence. Qed.

Lemma set_registryOk (conns : JsMap.t Conn.t) (key : string) (k : Conn.t) :
  registryOk conns -> Num.isNaN (Conn.rating k) = false ->
  registryOk (JsMap.set key k conns).
Proof.
  intros [N W] R. split; [apply set_unique; exact N|].
  intros s x I. apply set_In in I. destruct I as [I|I].
  - injection I as -> ->. exact R.
  - eapply W; eassumption.
Qed.

Context `{Host}.

(** Every handler keeps the registry well formed. *)
Lemma handle_registryOk (st : State) (e : event) :
  registryOk (connections st) ->
  registryOk (connections (state (handle st e))).
Proof.
  intro Ok. pose proof Ok as [N W].
  destruct e as [s p|s v|s l t|s a p t1 t2 t3 r|s i|s i|s i|s];
    cbn [handle].
  - unfold on_hello.
    destruct (match orDefault (prop "skills" (jsOr p (JObj []))) (JArr [])
              with JArr items => _ | _ => _ end); [|exact Ok].
    cbn [state connections]. apply set_registryOk; [exact Ok|].
    cbn [Conn.rating].
    destruct (Num.truthy _) eqn:T; [apply truthy_not_NaN; exact T|].
    reflexivity.
  - unfold on_status_availability.
    destruct (JsMap.get s (connections st)) as [k|] eqn:G; [|exact Ok].
    cbn [state connections]. apply set_registryOk; [exact Ok|].
    cbn. eapply W. apply get_In. exact G.
  - unfold on_location_update.
    destruct (JsMap.get s (connections st)) as [k|] eqn:G; [|exact Ok].
    destruct (prop "lat" _); try exact Ok.
    destruct (prop "lng" _); try exact Ok.
    cbn [state connections]. apply set_registryOk; [exact Ok|].
    cbn. eapply W. apply get_In. exact G.
  - unfold on_emergency_post.
    destruct (JsMap.get s (connections st)) as [k|]; [|exact Ok].
    destruct (Conn.role k); [exact Ok|].
    destruct (Z.ltb _ _); [exact Ok|].
    destruct (isEmpty _); [exact Ok|].
    destruct (prop "lat" _); try exact Ok.
    destruct (prop "lng" _); try exact Ok.
    destruct (dispatchEmergency _ _). exact Ok.
  - unfold on_emergency_accept.
    destruct (JsMap.get s (connections st)) as [k|] eqn:G; [|exact Ok].
    destruct (negb _); [exact Ok|].
    destruct (JsMap.get i (emergencies st)) as [em|]; [|exact Ok].
    destruct (isClosed _); [exact Ok|].
    destruct (Em.assignedHelper em); [exact Ok|].
    cbn [state connections]. apply set_registryOk; [exact Ok|].
    cbn. eapply W. apply get_In. exact G.
  - unfold on_emergency_cancel.
    destruct (JsMap.get s (connections st)) as [k|]; [|exact Ok].
    destruct (JsMap.get i (emergencies st)) as [em|]; [|exact Ok].
    destruct (negb _); exact Ok.
  - unfold on_emergency_resolved.
    destruct (JsMap.get s (connections st)) as [k|] eqn:G; [|exact Ok].
    destruct (JsMap.get i (emergencies st)) as [em|]; [|exact Ok].
    destruct (Em.assignedHelper em) as [h|]; [|exact Ok].
    destruct (negb _); [exact Ok|].
    cbn [state connections]. apply set_registryOk; [exact Ok|].
    cbn. eapply W. apply get_In. exact G.
  - unfold on_disconnect.
    destruct (JsMap.get s (connections st)) as [k|]; [|exact Ok].
    destruct (fold_left _ _ _) as [ems out]. cbn [state connections].
    split; [apply delete_unique; exact N|].
    intros x y I. apply delete_In in I. eapply W; eassumption.
Qed.

Lemma run_registryOk (es : list event) (st : State) :
  registryOk (connections st) -> registryOk (connections (fst (run st es))).
Proof.
  revert st. induction es as [|e r IH]; intros st Ok; [exact Ok|].
  cbn [run]. destruct (run (state (handle st e)) r) as [st' rs] eqn:R.
  cbn [fst]. change st' with (fst (st', rs)). rewrite <- R.
  apply IH. apply handle_registryOk. exact Ok.
Qed.

Lemma reachable_registryOk (es : list event) :
  registryOk (connections (fst (run initial es))).
Proof.
  apply run_registryOk. split; [constructor|]. intros s k [].
Qed.
End RegistryFacts.

(* ================================================================== *)
(** * Further properties of the engine *)

(** ** More on maps *)

Lemma get_delete_other {V : Type} (k k' : string) (m : JsMap.t V) :
  k' <> k -> JsMap.get k' (JsMap.delete k m) = JsMap.get k' m.
Proof.
  intro N. apply String.eqb_neq in N.
  induction m as [|[k0 v0] r IH]; cbn [JsMap.delete JsMap.get];
    [reflexivity|].
  destruct (String.eqb k k0) eqn:E; cbn [JsMap.get].
  - apply String.eqb_eq in E. subst k0. rewrite N. reflexivity.
  - rewrite IH. reflexivity.
Qed.

Lemma get_map_values {V : Type} (g : V -> V) (k : string) (m : JsMap.t V) :
  JsMap.get k (map (fun e => (fst e, g (snd e))) m) =
  option_map g (JsMap.get k m).
Proof.
  induction m as [|[k0 v0] r IH]; cbn [map JsMap.get fst snd];
    [reflexivity|].
  destruct (String.eqb k k0); [reflexivity | exact IH].
Qed.

Ltac break_match :=
  match goal with
  | |- context [match ?x with _ => _ end] => destruct x eqn:?
  end.

(** ** A party's entry changes only through its own socket *)

Section PartyFrame.
Context `{Host}.

Lemma foreign_event_keeps_party (st : State) (e : event) (s : string) :
  sender e <> s ->
  JsMap.get s (connections (state (handle st e))) =
  JsMap.get s (connections st).
Proof.
  intro N.
  destruct e as [s' p|s' v|s' l t|s' a p t1 t2 t3 r|s' i|s' i|s' i|s'];
    cbn [sender] in N; cbn [handle];
    [ unfold on_hello | unfold on_status_availability
    | unfold on_location_update | unfold on_emergency_post
    | unfold on_emergency_accept | unfold on_emergency_cancel
    | unfold on_emergency_resolved | unfold on_disconnect ];
    repeat break_match; cbn [state connections reject];
    try reflexivity;
    try (apply get_set_other; congruence);
    try (apply get_delete_other; congruence).
Qed.
End PartyFrame.

Lemma sameParty_refl (k : Conn.t) : sameParty k k.
Proof. unfold sameParty. auto. Qed.

Section PartyIdentity.
Context `{Host}.

(** X1.  An event arriving on another socket leaves a party's
    registry entry exactly as it was; an event on the party's own
    socket other than a handshake or a disconnect keeps the entry in
    the registry with the same id, role, name, capabilities and
    rating. *)
Theorem party_changes_only_by_own_events (st : State) (e : event)
    (s : string) (k : Conn.t) :
  JsMap.get s (connections st) = Some k ->
  (sender e <> s ->
   JsMap.get s (connections (state (handle st e))) = Some k) /\
  ((forall p, e <> Hello s p) -> e <> Disconnect s ->
   exists k',
     JsMap.get s (connections (state (handle st e))) = Some k' /\
     sameParty k k').
Proof.
  intro G. split.
  { intro N. rewrite foreign_event_keeps_party by exact N. exact G. }
  intros NH ND.
  destruct (string_dec (sender e) s) as [E|N].
  2:{ exists k. split; [|apply sameParty_refl].
      rewrite foreign_event_keeps_party by exact N. exact G. }
  destruct e as [s' p|s' v|s' l t|s' a p t1 t2 t3 r|s' i|s' i|s' i|s'];
    cbn [sender] in E; subst s';
    [ exfalso; exact (NH p eq_refl) | | | | | | | exfalso; exact (ND eq_refl) ];
    cbn [handle];
    [ unfold on_status_availability
    | unfold on_location_update | unfold on_emergency_post
    | unfold on_emergency_accept | unfold on_emergency_cancel
    | unfold on_emergency_resolved ];
    rewrite G; repeat break_match; cbn [state connections reject];
    try rewrite get_set_same;
    try (exists k; split; [exact G | apply sameParty_refl]);
    eexists; (split; [reflexivity|]); unfold sameParty; cbn; auto.
Qed.
End PartyIdentity.

(** h1 accepts in the scenario: h2's entry is untouched and h1 keeps
    its handshake fields. *)
Lemma party_changes_only_by_own_events_witness :
  JsMap.get "h2" (connections acceptedState) =
    JsMap.get "h2" (connections dispatchedState) /\
  option_map Conn.name (JsMap.get "h1" (connections acceptedState)) =
    Some "Asha".
Proof.
  split.
  - edestruct (party_changes_only_by_own_events dispatchedState
                 (EmergencyAccept "h1" "em_abc") "h2") as [F _];
      [reflexivity|].
    change acceptedState
      with (state (handle dispatchedState (EmergencyAccept "h1" "em_abc"))).
    rewrite F by discriminate. reflexivity.
  - edestruct (party_changes_only_by_own_events dispatchedState
                 (EmergencyAccept "h1" "em_abc") "h1") as [_ F];
      [reflexivity|].
    destruct F as (k' & G' & _ & _ & Nm & _); try discriminate.
    change acceptedState
      with (state (handle dispatchedState (EmergencyAccept "h1" "em_abc"))).
    rewrite G'. cbn [option_map]. rewrite <- Nm. reflexivity.
Defined.

(** ** Requests are never removed and keep what they were created with *)

Lemma set_add_NoDup (x : string) (l : JsSet.t) :
  NoDup l -> NoDup (JsSet.add x l).
Proof.
  intro N. unfold JsSet.add, JsSet.has.
  destruct (existsb (String.eqb x) l) eqn:E; [exact N|].
  apply NoDup_app; [exact N | repeat constructor; intros [] |].
  intros y Iy [Q|[]]. subst y.
  assert (existsb (String.eqb x) l = true)
    by (apply existsb_exists; exists x; split;
        [exact Iy | apply String.eqb_refl]).
  congruence.
Qed.

Lemma pinged_NoDup (targets : list Candidate) (em : Em.t) :
  NoDup (Em.responders em) -> NoDup (Em.responders (pinged targets em)).
Proof.
  unfold pinged. revert em.
  induction targets as [|k r IH]; intros em N; cbn [fold_left];
    [exact N|].
  apply IH. cbn [Em.addResponder Em.responders].
  apply set_add_NoDup. exact N.
Qed.

Lemma sameRequest_refl (em : Em.t) : sameRequest em em.
Proof. unfold sameRequest. auto 10. Qed.

Section DispatchKeeps.
Context `{Host}.

Lemma dispatch_keeps_request (conns : JsMap.t Conn.t) (em : Em.t) :
  let em' := fst (dispatchEmergency conns em) in
  sameRequest em em' /\
  incl (Em.responders em) (Em.responders em') /\
  Em.assignedHelper em' = Em.assignedHelper em /\
  (Em.status em' = Em.status em \/ Em.status em' = dispatched) /\
  (NoDup (Em.responders em) -> NoDup (Em.responders em')).
Proof.
  cbn zeta. rewrite dispatchEmergency_unfold. cbn zeta. cbn [fst].
  set (targets := targetsOf conns em).
  destruct (pinged_frame targets em) as (_ & I & S & R & L & N & C & St & A).
  pose proof (pinged_responders targets em) as Rs.
  pose proof (pinged_NoDup targets em) as Nd.
  destruct (Nat.ltb 0 (List.length targets));
    cbn [Em.setStatus Em.responders Em.assignedHelper Em.status];
    (split; [unfold sameRequest; cbn; auto 10|]);
    (split; [intros x Ix; apply Rs; left; exact Ix|]);
    auto.
Qed.
End DispatchKeeps.

Section RequestsPersist.
Context `{Host}.

(** X2.  No event removes a request.  Unless the event is a post that
    stores a new request under the same id, a stored request is still
    stored afterwards with the id, seeker, capability, origin, note and
    creation time it had, and every identity in its [responders] is
    still there. *)
Theorem requests_persist (st : State) (e : event) (key : string)
    (em : Em.t) :
  JsMap.get key (emergencies st) = Some em ->
  ~ storesUnder e key ->
  exists em',
    JsMap.get key (emergencies (state (handle st e))) = Some em' /\
    sameRequest em em' /\
    incl (Em.responders em) (Em.responders em').
Proof.
  intros G NS.
  assert (Same : exists em', JsMap.get key (emergencies st) = Some em' /\
                   sameRequest em em' /\
                   incl (Em.responders em) (Em.responders em'))
    by (exists em; split; [exact G|]; split;
        [apply sameRequest_refl | apply incl_refl]).
  destruct e as [s p|s v|s l t|s a p t1 t2 t3 r|s i|s i|s i|s];
    cbn [handle storesUnder] in *.
  - unfold on_hello. repeat break_match; exact Same.
  - unfold on_status_availability. repeat break_match; exact Same.
  - unfold on_location_update. repeat break_match; exact Same.
  - unfold on_emergency_post. repeat break_match;
      cbn [state emergencies reject Em.id]; try exact Same;
      rewrite !get_set_other by (intro Q; apply NS; symmetry; exact Q);
      exact Same.
  - destruct (string_dec i key) as [->|Ni].
    + unfold on_emergency_accept. rewrite G. repeat break_match;
        cbn [state emergencies reject]; try exact Same;
        rewrite get_set_same; eexists; (split; [reflexivity|]);
        (split; [unfold sameRequest; cbn; auto 10 | apply incl_refl]).
    + unfold on_emergency_accept. repeat break_match;
        cbn [state emergencies reject]; try exact Same;
        rewrite get_set_other by congruence; exact Same.
  - destruct (string_dec i key) as [->|Ni].
    + unfold on_emergency_cancel. rewrite G. repeat break_match;
        cbn [state emergencies reject]; try exact Same;
        rewrite get_set_same; eexists; (split; [reflexivity|]);
        (split; [unfold sameRequest; cbn; auto 10 | apply incl_refl]).
    + unfold on_emergency_cancel. repeat break_match;
        cbn [state emergencies reject]; try exact Same;
        rewrite get_set_other by congruence; exact Same.
  - destruct (string_dec i key) as [->|Ni].
    + unfold on_emergency_resolved. rewrite G. repeat break_match;
        cbn [state emergencies reject]; try exact Same;
        rewrite get_set_same; eexists; (split; [reflexivity|]);
        (split; [unfold sameRequest; cbn; auto 10 | apply incl_refl]).
    + unfold on_emergency_resolved. repeat break_match;
        cbn [state emergencies reject]; try exact Same;
        rewrite get_set_other by congruence; exact Same.
  - destruct (JsMap.get s (connections st)) as [k|] eqn:Gs.
    + rewrite (on_disconnect_registered st s k Gs). cbn [state emergencies].
      rewrite (get_map_values
                 (fun x => if heldBy s x
                           then fst (reopened (connections st) x) else x)).
      rewrite G. cbn [option_map]. eexists. split; [reflexivity|].
      destruct (heldBy s em);
        [|split; [apply sameRequest_refl | apply incl_refl]].
      unfold reopened.
      destruct (dispatch_keeps_request (connections st)
                  (Em.setStatus pending (Em.setAssignedHelper None em)))
        as (S & I & _).
      split; [exact S | exact I].
    + unfold on_disconnect. rewrite Gs. exact Same.
Qed.
End RequestsPersist.

(** The request of the scenario survives the disconnect of the helper
    that held it. *)
Lemma requests_persist_witness :
  JsMap.get "em_abc" (emergencies acceptedState) <> None /\
  option_map Em.createdAt
    (JsMap.get "em_abc"
       (emergencies (state (handle acceptedState (Disconnect "h1"))))) =
  Some 100002.
Proof.
  split; [vm_compute; discriminate|].
  edestruct (requests_persist acceptedState (Disconnect "h1") "em_abc")
    as (em' & G' & (_ & _ & _ & _ & _ & C) & _);
    [reflexivity | intros [] |].
  rewrite G'. cbn [option_map]. rewrite <- C. reflexivity.
Defined.

(** ** What every reachable request store satisfies *)

Lemma requestsOk_set (ems : JsMap.t Em.t) (i : string) (em : Em.t) :
  requestsOk ems -> i = Em.id em -> coherent em ->
  NoDup (Em.responders em) -> requestsOk (JsMap.set i em ems).
Proof.
  intros [N A] I C R. split; [apply set_unique; exact N|].
  intros key x In'. apply set_In in In'. destruct In' as [Q|In'].
  - injection Q as -> ->. auto.
  - apply A. exact In'.
Qed.

Lemma requestsOk_get (ems : JsMap.t Em.t) (i : string) (em : Em.t) :
  requestsOk ems -> JsMap.get i ems = Some em ->
  i = Em.id em /\ coherent em /\ NoDup (Em.responders em).
Proof.
  intros [_ A] G. apply A. apply get_In. exact G.
Qed.

Section RequestInvariant.
Context `{Host}.

Lemma post_emergencies (st : State) (s a : string) (p : jsval)
    (t1 t2 t3 : Z) (r : string) :
  let o := on_emergency_post st s a p t1 t2 t3 r in
  let em := newRequest s p t3 r in
  emergencies (state o) = emergencies st \/
  emergencies (state o) =
  JsMap.set (Em.id em) (fst (dispatchEmergency (connections st) em))
    (JsMap.set (Em.id em) em (emergencies st)).
Proof.
  cbn zeta.
  destruct (JsMap.get s (connections st)) as [k|] eqn:G.
  2:{ rewrite post_not_connected by exact G. left. reflexivity. }
  destruct (Conn.role k) eqn:R.
  { erewrite post_not_seeker by eassumption. left. reflexivity. }
  destruct (Z.lt_ge_cases
              (t1 - lastAtOf (ipOf a) (lastEmergencyAtByIP st))
              POST_COOLDOWN_MS) as [L|L].
  { erewrite post_too_many by eassumption. left. reflexivity. }
  destruct (string_dec (requiredSkillOf p) "") as [S|S].
  { erewrite post_missing_skill by eassumption. left. reflexivity. }
  destruct (numericCoords p) eqn:C.
  - erewrite post_created by eassumption. right. reflexivity.
  - erewrite post_missing_location by eassumption. left. reflexivity.
Qed.

Lemma handle_requestsOk (st : State) (e : event) :
  requestsOk (emergencies st) ->
  requestsOk (emergencies (state (handle st e))).
Proof.
  intro Ok.
  destruct e as [s p|s v|s l t|s a p t1 t2 t3 r|s i|s i|s i|s];
    cbn [handle].
  - unfold on_hello. repeat break_match; exact Ok.
  - unfold on_status_availability. repeat break_match; exact Ok.
  - unfold on_location_update. repeat break_match; exact Ok.
  - destruct (post_emergencies st s a p t1 t2 t3 r) as [E|E];
      rewrite E; [exact Ok|].
    destruct (dispatch_keeps_request (connections st)
                (newRequest s p t3 r))
      as ((I & _) & _ & A & St & Nd).
    assert (Ok0 : requestsOk
                    (JsMap.set (Em.id (newRequest s p t3 r))
                       (newRequest s p t3 r) (emergencies st))).
    { apply requestsOk_set; [exact Ok | reflexivity | reflexivity|].
      constructor. }
    apply requestsOk_set; [exact Ok0 | exact I | |].
    + unfold coherent. rewrite A. destruct St as [-> | ->]; reflexivity.
    + apply Nd. constructor.
  - unfold on_emergency_accept.
    destruct (JsMap.get s (connections st)) as [k|]; [|exact Ok].
    destruct (negb _); [exact Ok|].
    destruct (JsMap.get i (emergencies st)) as [em|] eqn:G; [|exact Ok].
    destruct (isClosed _); [exact Ok|].
    destruct (Em.assignedHelper em); [exact Ok|].
    destruct (requestsOk_get _ _ _ Ok G) as (I & _ & Nd).
    cbn [state emergencies]. apply requestsOk_set; try assumption.
    unfold coherent. cbn. discriminate.
  - unfold on_emergency_cancel.
    destruct (JsMap.get s (connections st)) as [k|]; [|exact Ok].
    destruct (JsMap.get i (emergencies st)) as [em|] eqn:G; [|exact Ok].
    destruct (negb _); [exact Ok|].
    destruct (requestsOk_get _ _ _ Ok G) as (I & _ & Nd).
    cbn [state emergencies]. apply requestsOk_set; try assumption.
    exact Logic.I.
  - unfold on_emergency_resolved.
    destruct (JsMap.get s (connections st)) as [k|]; [|exact Ok].
    destruct (JsMap.get i (emergencies st)) as [em|] eqn:G; [|exact Ok].
    destruct (Em.assignedHelper em); [|exact Ok].
    destruct (negb _); [exact Ok|].
    destruct (requestsOk_get _ _ _ Ok G) as (I & _ & Nd).
    cbn [state emergencies]. apply requestsOk_set; try assumption.
    exact Logic.I.
  - destruct (JsMap.get s (connections st)) as [k|] eqn:Gs.
    2:{ unfold on_disconnect. rewrite Gs. exact Ok. }
    rewrite (on_disconnect_registered st s k Gs). cbn [state emergencies].
    destruct Ok as [N A]. split.
    + rewrite map_map. cbn [fst]. exact N.
    + intros key x In'. apply in_map_iff in In'.
      destruct In' as ([key0 em0] & Q & In0). cbn [fst snd] in Q.
      injection Q as <- <-. destruct (A _ _ In0) as (I & C & Nd).
      destruct (heldBy s em0); [|auto].
      unfold reopened.
      destruct (dispatch_keeps_request (connections st)
                  (Em.setStatus pending (Em.setAssignedHelper None em0)))
        as ((I' & _) & _ & A' & St & Nd').
      split; [rewrite <- I'; exact I|]. split; [|apply Nd'; exact Nd].
      unfold coherent. rewrite A'. destruct St as [-> | ->]; reflexivity.
Qed.

(** X3.  In every store reached from the empty one, each request is
    stored once, under its own id; a request in status [pending] or
    [dispatched] has no assigned helper and a request in status
    [accepted] has one; and no identity occurs twice in its
    [responders]. *)
Theorem reachable_requestsOk (es : list event) :
  requestsOk (emergencies (fst (run initial es))).
Proof.
  assert (G : forall st, requestsOk (emergencies st) ->
                requestsOk (emergencies (fst (run st es)))).
  { induction es as [|e r IH]; intros st Ok; [exact Ok|].
    rewrite run_cons. cbn [fst]. apply IH. apply handle_requestsOk.
    exact Ok. }
  apply G. split; [constructor|]. intros key em [].
Qed.
End RequestInvariant.

(** ** What the handshake guarantees of every stored party *)

Lemma lowerChar_idem (a : ascii) : lowerChar (lowerChar a) = lowerChar a.
Proof.
  destruct a as [[] [] [] [] [] [] [] []]; vm_compute; reflexivity.
Qed.

Lemma toLowerCase_idem (s : string) :
  toLowerCase (toLowerCase s) = toLowerCase s.
Proof.
  induction s as [|a r IH]; cbn [toLowerCase]; [reflexivity|].
  rewrite lowerChar_idem, IH. reflexivity.
Qed.

Lemma ofList_spec (l : list string) :
  NoDup (JsSet.ofList l) /\
  forall x, In x (JsSet.ofList l) <-> In x l.
Proof.
  unfold JsSet.ofList.
  assert (G : forall acc, NoDup acc ->
                NoDup (fold_left (fun s x => JsSet.add x s) l acc) /\
                forall x, In x (fold_left (fun s x => JsSet.add x s) l acc)
                          <-> In x acc \/ In x l).
  { induction l as [|y r IH]; intros acc N; cbn [fold_left In].
    - split; [exact N | tauto].
    - destruct (IH (JsSet.add y acc) (set_add_NoDup y acc N)) as [N' M].
      split; [exact N'|]. intro x. rewrite M, set_add_member.
      intuition congruence. }
  destruct (G [] (NoDup_nil _)) as [N M]. split; [exact N|].
  intro x. rewrite M. cbn [In]. tauto.
Qed.

Lemma lowerAll_spec (items : list jsval) (l : list string) :
  lowerAll items = Some l ->
  forall tag, In tag l -> toLowerCase tag = tag.
Proof.
  revert l. induction items as [|v r IH]; intros l E tag I;
    cbn [lowerAll] in E.
  - injection E as <-. destruct I.
  - destruct v; try discriminate E.
    destruct (lowerAll r) as [l'|]; [|discriminate E].
    injection E as <-. destruct I as [<-|I].
    + apply toLowerCase_idem.
    + eapply IH; [reflexivity | exact I].
Qed.

Lemma trimEnd_nonempty (s : string) :
  isEmpty (trimEnd s) = false -> trimEnd s <> "".
Proof. destruct (trimEnd s); [discriminate | discriminate]. Qed.

Lemma parsed_skills_ok (v : jsval) (set : JsSet.t) :
  match v with
  | JArr items =>
      match lowerAll items with
      | Some l => Some (JsSet.ofList l)
      | None => None
      end
  | _ => Some (JsSet.ofList [])
  end = Some set ->
  NoDup set /\ forall tag, In tag set -> toLowerCase tag = tag.
Proof.
  intro E.
  assert (exists l, set = JsSet.ofList l /\
                    forall tag, In tag l -> toLowerCase tag = tag)
    as (l & -> & Low).
  { destruct v; try (injection E as <-; exists []; split;
                     [reflexivity | intros tag []]).
    destruct (lowerAll items) as [l|] eqn:L; [|discriminate E].
    injection E as <-. exists l. split; [reflexivity|].
    apply (lowerAll_spec items). exact L. }
  destruct (ofList_spec l) as [Nd M]. split; [exact Nd|].
  intros tag I. apply Low. apply M. exact I.
Qed.


Section PartyInvariant.
Context `{Host}.

Lemma hello_outcome (st : State) (s : string) (p : jsval) :
  on_hello st s p = mkOutcome st [] Threw \/
  exists k,
    partyOk s k /\ Conn.location k = None /\ Conn.available k = true /\
    on_hello st s p =
    mkOutcome
      (mkState (JsMap.set s k (connections st)) (emergencies st)
               (lastEmergencyAtByIP st))
      [] (Acked (AckHello s)).
Proof.
  unfold on_hello.
  match goal with
  | |- context [match ?x with Some _ => _ | None => mkOutcome _ _ Threw end] =>
      destruct x as [set|] eqn:SS
  end.
  2:{ left. reflexivity. }
  right. eexists. split; [|split; [|split; [|reflexivity]]];
    [|reflexivity|reflexivity].
  apply parsed_skills_ok in SS. destruct SS as [Nd Low]. unfold partyOk.
  cbn [Conn.id Conn.name Conn.rating Conn.skills].
  repeat split; auto.
  - destruct (prop "name" (jsOr p (JObj []))); try discriminate.
    destruct (isEmpty (trim s0)) eqn:E; [discriminate|].
    intro Q. rewrite Q in E. discriminate E.
  - destruct (Num.truthy (jsNumber _)) eqn:T; [exact T | reflexivity].
Qed.

End PartyInvariant.

Lemma partiesOk_set (conns : JsMap.t Conn.t) (s : string) (k : Conn.t) :
  (forall key x, In (key, x) conns -> partyOk key x) ->
  partyOk s k ->
  forall key x, In (key, x) (JsMap.set s k conns) -> partyOk key x.
Proof.
  intros Ok Pk key x I. apply set_In in I. destruct I as [Q|I].
  - injection Q as -> ->. exact Pk.
  - apply Ok. exact I.
Qed.

Section ReachableParties.
Context `{Host}.

Lemma handle_partiesOk (st : State) (e : event) :
  (forall key x, In (key, x) (connections st) -> partyOk key x) ->
  forall key x, In (key, x) (connections (state (handle st e))) ->
                partyOk key x.
Proof.
  intro Ok.
  assert (Got : forall s k, JsMap.get s (connections st) = Some k ->
                            partyOk s k)
    by (intros s k G; apply Ok; apply get_In; exact G).
  destruct e as [s p|s v|s l t|s a p t1 t2 t3 r|s i|s i|s i|s];
    cbn [handle].
  - destruct (hello_outcome st s p) as [E|(k & Pk & _ & _ & E)]; rewrite E;
      cbn [state connections]; [exact Ok|].
    apply partiesOk_set; assumption.
  - unfold on_status_availability.
    destruct (JsMap.get s (connections st)) as [k|] eqn:G; [|exact Ok].
    cbn [state connections]. apply partiesOk_set; [exact Ok|].
    exact (Got s k G).
  - unfold on_location_update.
    destruct (JsMap.get s (connections st)) as [k|] eqn:G; [|exact Ok].
    destruct (prop "lat" _); try exact Ok.
    destruct (prop "lng" _); try exact Ok.
    cbn [state connections]. apply partiesOk_set; [exact Ok|].
    exact (Got s k G).
  - unfold on_emergency_post. repeat break_match; exact Ok.
  - unfold on_emergency_accept.
    destruct (JsMap.get s (connections st)) as [k|] eqn:G; [|exact Ok].
    destruct (negb _); [exact Ok|].
    destruct (JsMap.get i (emergencies st)) as [em|]; [|exact Ok].
    destruct (isClosed _); [exact Ok|].
    destruct (Em.assignedHelper em); [exact Ok|].
    cbn [state connections]. apply partiesOk_set; [exact Ok|].
    exact (Got s k G).
  - unfold on_emergency_cancel. repeat break_match; exact Ok.
  - unfold on_emergency_resolved.
    destruct (JsMap.get s (connections st)) as [k|] eqn:G; [|exact Ok].
    destruct (JsMap.get i (emergencies st)) as [em|]; [|exact Ok].
    destruct (Em.assignedHelper em) as [h|]; [|exact Ok].
    destruct (negb _); [exact Ok|].
    cbn [state connections]. apply partiesOk_set; [exact Ok|].
    exact (Got s k G).
  - unfold on_disconnect.
    destruct (JsMap.get s (connections st)) as [k|]; [|exact Ok].
    destruct (fold_left _ _ _) as [ems out]. cbn [state connections].
    intros key x I. apply delete_In in I. apply Ok. exact I.
Qed.

(** X5.  In every registry reached from the empty one there is one
    entry per identity, and every party is stored under its own id with
    a name that is not empty, a rating that is neither NaN nor zero,
    and distinct lower-case capability tags. *)
Theorem reachable_partiesOk (es : list event) :
  NoDup (map fst (connections (fst (run initial es)))) /\
  forall key k, In (key, k) (connections (fst (run initial es))) ->
                partyOk key k.
Proof.
  split; [apply (reachable_registryOk es)|].
  assert (G : forall st,
             (forall key x, In (key, x) (connections st) -> partyOk key x) ->
             forall key x, In (key, x) (connections (fst (run st es))) ->
                           partyOk key x).
  { induction es as [|e r IH]; intros st Ok; [exact Ok|].
    rewrite run_cons. cbn [fst]. apply IH. apply handle_partiesOk.
    exact Ok. }
  apply G. intros key x [].
Qed.
End ReachableParties.

(** ** Cancelling a request *)

Section Cancelling.
Variables (st : State) (s i : string).

Local Abbreviation o := (on_emergency_cancel st s i).

Lemma cancel_by_owner (k : Conn.t) (em : Em.t) :
  JsMap.get s (connections st) = Some k ->
  JsMap.get i (emergencies st) = Some em ->
  Em.seekerSocketId em = s ->
  o = mkOutcome
        (mkState (connections st)
           (JsMap.set i (Em.setStatus cancelled em) (emergencies st))
           (lastEmergencyAtByIP st))
        (map (fun r => (r, EmitCancelled i)) (Em.responders em)
         ++ match Em.assignedHelper em with
            | Some h => [(Helper.socketId h, EmitCancelled i)]
            | None => []
            end)%list
        (Acked AckOk).
Proof.
  intros G E Q. unfold on_emergency_cancel. rewrite G, E.
  apply String.eqb_eq in Q. rewrite Q. reflexivity.
Qed.

(** X6.  A cancel succeeds exactly when the caller is a registered
    party, the request exists and the caller is the seeker that posted
    it.  It then sets the status to [cancelled], notifies every
    identity in [responders] and then the assigned helper if there is
    one, and changes nothing else: the registry is untouched, so the
    assigned helper stays assigned and stays unavailable.  A registered
    caller that is not the seeker gets [not_owner]; an unregistered
    caller or an unknown request gets a failure without an error code;
    in both cases nothing is changed or sent. *)
Theorem cancel_rules :
  (replied o = Acked AckOk <->
   exists k em,
     JsMap.get s (connections st) = Some k /\
     JsMap.get i (emergencies st) = Some em /\
     Em.seekerSocketId em = s) /\
  (forall k em,
      JsMap.get s (connections st) = Some k ->
      JsMap.get i (emergencies st) = Some em ->
      Em.seekerSocketId em = s ->
      connections (state o) = connections st /\
      lastEmergencyAtByIP (state o) = lastEmergencyAtByIP st /\
      emergencies (state o) =
        JsMap.set i (Em.setStatus cancelled em) (emergencies st) /\
      emitted o =
        (map (fun r => (r, EmitCancelled i)) (Em.responders em)
         ++ match Em.assignedHelper em with
            | Some h => [(Helper.socketId h, EmitCancelled i)]
            | None => []
            end)%list) /\
  (forall k em,
      JsMap.get s (connections st) = Some k ->
      JsMap.get i (emergencies st) = Some em ->
      Em.seekerSocketId em <> s ->
      o = reject st (AckError not_owner)) /\
  (JsMap.get s (connections st) = None \/
   JsMap.get i (emergencies st) = None ->
   o = reject st AckFail).
Proof.
  split; [|split; [|split]].
  - split.
    + unfold on_emergency_cancel.
      destruct (JsMap.get s (connections st)) as [k|]; [|discriminate].
      destruct (JsMap.get i (emergencies st)) as [em|]; [|discriminate].
      destruct (String.eqb (Em.seekerSocketId em) s) eqn:Q;
        [|discriminate].
      intros _. apply String.eqb_eq in Q. exists k, em. auto.
    + intros (k & em & G & E & Q). rewrite (cancel_by_owner k em G E Q).
      reflexivity.
  - intros k em G E Q. rewrite (cancel_by_owner k em G E Q). cbn. auto.
  - intros k em G E Q. unfold on_emergency_cancel. rewrite G, E.
    apply String.eqb_neq in Q. rewrite Q. reflexivity.
  - intros [G|G]; unfold on_emergency_cancel; rewrite G; [reflexivity|].
    destruct (JsMap.get s (connections st)); reflexivity.
Qed.

(** X7.  When the assigned helper of a cancelled request is also
    among its [responders], it is sent the cancellation twice: once in
    the round over the responders and once more as assigned helper. *)
Theorem cancel_notifies_assignee_twice (k : Conn.t) (em : Em.t)
    (h : Helper.t) :
  JsMap.get s (connections st) = Some k ->
  JsMap.get i (emergencies st) = Some em ->
  Em.seekerSocketId em = s ->
  Em.assignedHelper em = Some h ->
  In (Helper.socketId h) (Em.responders em) ->
  exists before between,
    emitted o =
    (before ++ (Helper.socketId h, EmitCancelled i)
     :: between ++ [(Helper.socketId h, EmitCancelled i)])%list.
Proof.
  intros G E Q A I. rewrite (cancel_by_owner k em G E Q). cbn [emitted].
  rewrite A. apply in_split in I. destruct I as (l1 & l2 & ->).
  exists (map (fun r => (r, EmitCancelled i)) l1),
         (map (fun r => (r, EmitCancelled i)) l2).
  rewrite map_app. cbn [map]. rewrite <- app_assoc. reflexivity.
Qed.
End Cancelling.

(** The seeker cancels the request h1 accepted: h1 hears of it
    twice. *)
Lemma cancel_notifies_assignee_twice_witness :
  JsMap.get "s1" (connections acceptedState) <> None /\
  emitted (on_emergency_cancel acceptedState "s1" "em_abc") =
  [("h2", EmitCancelled "em_abc"); ("h1", EmitCancelled "em_abc");
   ("h1", EmitCancelled "em_abc")].
Proof.
  split; [vm_compute; discriminate|].
  edestruct (cancel_notifies_assignee_twice acceptedState "s1" "em_abc")
    as (l1 & l2 & E);
    [reflexivity | reflexivity | reflexivity | reflexivity
    | right; left; reflexivity |].
  reflexivity.
Defined.

(** The seeker cancels the dispatched request; helper h1 may not. *)
Lemma cancel_rules_witness :
  replied (on_emergency_cancel dispatchedState "s1" "em_abc") = Acked AckOk /\
  replied (on_emergency_cancel dispatchedState "h1" "em_abc") =
    Acked (AckError not_owner).
Proof.
  destruct (cancel_rules dispatchedState "s1" "em_abc") as ((_ & Ok) & _).
  destruct (cancel_rules dispatchedState "h1" "em_abc") as (_ & _ & No & _).
  split.
  - apply Ok. do 2 eexists. repeat split; reflexivity.
  - erewrite No; [reflexivity | reflexivity | reflexivity |].
    vm_compute. discriminate.
Defined.

(** ** Who hears of an accept *)

(** X8.  A successful accept sends the seeker one notification naming
    the winner's id and name, then a [taken] notification to every
    identity in [responders] other than the winner, in the order they
    were added; the winner is sent no [taken] notification, and nobody
    outside [responders] is. *)
Theorem accept_notifications (st : State) (s i : string) :
  replied (on_emergency_accept st s i) = Acked AckOk ->
  exists k em,
    JsMap.get s (connections st) = Some k /\
    JsMap.get i (emergencies st) = Some em /\
    emitted (on_emergency_accept st s i) =
      (Em.seekerSocketId em, EmitAccepted (Em.id em) s (Conn.name k))
      :: map (fun r => (r, EmitTaken (Em.id em)))
           (filter (fun r => negb (String.eqb r s)) (Em.responders em)) /\
    (forall r m,
        In (r, EmitTaken m) (emitted (on_emergency_accept st s i)) <->
        m = Em.id em /\ In r (Em.responders em) /\ r <> s).
Proof.
  intro R. apply accept_ok_iff in R.
  destruct R as (k & em & G & Ro & E & C1 & C2 & A).
  exists k, em. split; [exact G|]. split; [exact E|].
  rewrite (accept_wins st s i k em) by (auto; apply isClosed_false; auto).
  cbn [emitted]. split; [reflexivity|].
  intros r m. cbn [In]. rewrite in_map_iff. split.
  - intros [Q|(x & Q & I)]; [discriminate Q|].
    injection Q as -> ->. apply filter_In in I. destruct I as [I N].
    apply negb_true_iff, String.eqb_neq in N. auto.
  - intros (-> & I & N). right. exists r. split; [reflexivity|].
    apply filter_In. split; [exact I|].
    apply negb_true_iff, String.eqb_neq. exact N.
Qed.

(** h1 accepts: the seeker and h2 are told, h1 is not. *)
Lemma accept_notifications_witness :
  emitted (on_emergency_accept dispatchedState "h1" "em_abc") =
  [("s1", EmitAccepted "em_abc" "h1" "Asha"); ("h2", EmitTaken "em_abc")].
Proof.
  edestruct (accept_notifications dispatchedState "h1" "em_abc")
    as (k & em & G & E & Out & _); [reflexivity|].
  vm_compute in G, E. injection G as <-. injection E as <-.
  rewrite Out. reflexivity.
Defined.

(** ** One request at a time *)



(** ** The size of a dispatch round *)

Lemma NoDup_firstn_keep {A : Type} (n : nat) (l : list A) :
  NoDup l -> NoDup (firstn n l).
Proof.
  revert n. induction l as [|x r IH]; intros [|n] N; cbn [firstn];
    try constructor.
  - inversion N as [|? ? Nx Nr]; subst. intro I. apply Nx.
    eapply firstn_subset. exact I.
  - inversion N; subst. apply IH. assumption.
Qed.

Lemma NoDup_keys_filter {V : Type} (f : string * V -> bool)
    (m : JsMap.t V) :
  NoDup (map fst m) -> NoDup (map fst (filter f m)).
Proof.
  induction m as [|e r IH]; cbn [map filter]; intro N; [constructor|].
  inversion N as [|? ? Nx Nr]; subst.
  destruct (f e); cbn [map]; [|apply IH; exact Nr].
  constructor; [|apply IH; exact Nr].
  intro I. apply Nx. apply in_map_iff in I. destruct I as (y & Q & I).
  apply filter_In in I. apply in_map_iff. exists y. tauto.
Qed.

Section RoundSize.
Context `{Host}.

Lemma rankHelpers_unfold (conns : JsMap.t Conn.t) (skill : string)
    (lat lng : num) :
  rankHelpers conns skill lat lng =
  firstn 25 (arraySort compareCandidates
               (eligibleCandidates conns skill lat lng)).
Proof.
  unfold rankHelpers. rewrite consider_fold. reflexivity.
Qed.

Lemma rankHelpers_distinct (conns : JsMap.t Conn.t) (skill : string)
    (lat lng : num) :
  NoDup (map fst conns) ->
  NoDup (map sid (rankHelpers conns skill lat lng)).
Proof.
  intro N. rewrite rankHelpers_unfold, <- firstn_map.
  apply NoDup_firstn_keep.
  eapply Permutation_NoDup;
    [apply Permutation_map, Permutation_sym, arraySort_perm|].
  unfold eligibleCandidates. rewrite map_map. cbn [candidateOf sid].
  apply NoDup_keys_filter. exact N.
Qed.

(** X10.  A dispatch round reaches at most three parties, each of
    them once, and each of them a helper of the registry that is
    available, located, capable and within the search radius (so never
    a seeker); the round sends one notification per target and then the
    summary, whose count is that number of targets. *)
Theorem dispatch_round_size (conns : JsMap.t Conn.t) (em : Em.t) :
  NoDup (map fst conns) ->
  let targets := targetsOf conns em in
  (List.length targets <= 3)%nat /\
  NoDup (map sid targets) /\
  (forall k, In k targets ->
     In (sid k, c k) conns /\
     Eligible (Em.requiredSkill em) (Pt.lat (Em.location em))
       (Pt.lng (Em.location em)) (c k) (d k)) /\
  map fst (snd (dispatchEmergency conns em)) =
    (map sid targets ++ [Em.seekerSocketId em])%list /\
  In (Em.seekerSocketId em,
      EmitDispatchSummary (Em.id em) (List.length targets))
     (snd (dispatchEmergency conns em)).
Proof.
  intros N targets.
  split; [apply firstn_le_length|].
  split.
  { unfold targets, targetsOf. rewrite <- firstn_map.
    apply NoDup_firstn_keep. apply rankHelpers_distinct. exact N. }
  split.
  { intros k I. unfold targets, targetsOf in I. apply firstn_subset in I.
    apply rankHelpers_member in I. exact I. }
  rewrite dispatchEmergency_unfold. cbn zeta. cbn [snd]. fold targets.
  split.
  - rewrite map_app, map_map. reflexivity.
  - apply in_or_app. right. left. reflexivity.
Qed.
End RoundSize.

(** The round of the scenario reaches the two helpers. *)
Lemma dispatch_round_size_witness :
  NoDup (map fst (connections dispatchedState)) /\
  map fst
    (snd (dispatchEmergency (connections dispatchedState)
            (newRequest "s1" bikeRequest 100002 "abc"))) =
  ["h2"; "h1"; "s1"].
Proof.
  assert (N : NoDup (map fst (connections dispatchedState))).
  { vm_compute. repeat constructor; cbn [In]; intuition discriminate. }
  split; [exact N|].
  destruct (dispatch_round_size (connections dispatchedState)
              (newRequest "s1" bikeRequest 100002 "abc") N)
    as (_ & _ & _ & E & _).
  rewrite E. vm_compute. reflexivity.
Defined.

(** ** A post that matches nobody, and a post after the cooldown *)

Section PostingMore.
Context `{Host}.

Lemma no_eligible_no_targets (conns : JsMap.t Conn.t) (em : Em.t) :
  (forall key k dist,
      In (key, k) conns ->
      ~ Eligible (Em.requiredSkill em) (Pt.lat (Em.location em))
          (Pt.lng (Em.location em)) k dist) ->
  targetsOf conns em = [].
Proof.
  intro No. unfold targetsOf.
  destruct (firstn _ _) as [|x r] eqn:E; [reflexivity|].
  exfalso.
  assert (I : In x (firstn (Nat.max 1 MAX_PARALLEL_DISPATCH)
                      (rankHelpers conns (Em.requiredSkill em)
                         (Pt.lat (Em.location em))
                         (Pt.lng (Em.location em)))))
    by (rewrite E; left; reflexivity).
  apply firstn_subset, rankHelpers_member in I. destruct I as [I El].
  exact (No _ _ _ I El).
Qed.

(** X11.  When a post passes its guards but no registered party is an
    available, located, capable helper within the radius, the request
    is stored in status [pending] with no responders and no assigned
    helper, and the only notification is the seeker's summary, with a
    count of zero. *)
Theorem post_without_match_stays_pending (st : State)
    (s a : string) (p : jsval) (t1 t2 t3 : Z) (r : string) :
  postGuard st s a p t1 ->
  (forall key k dist,
      In (key, k) (connections st) ->
      ~ Eligible (requiredSkillOf p)
          (numberOf (prop "lat" (locationOf p)))
          (numberOf (prop "lng" (locationOf p))) k dist) ->
  let o := on_emergency_post st s a p t1 t2 t3 r in
  replied o = Acked (AckPosted ("em_" ++ r)) /\
  JsMap.get ("em_" ++ r) (emergencies (state o)) =
    Some (newRequest s p t3 r) /\
  emitted o = [(s, EmitDispatchSummary ("em_" ++ r) 0)].
Proof.
  intros ((k & G & Ro) & L & S & C) No o. subst o.
  erewrite post_created by eassumption. cbn zeta.
  rewrite dispatchEmergency_unfold. cbn zeta.
  rewrite (no_eligible_no_targets (connections st) (newRequest s p t3 r))
    by exact No.
  cbn [List.length Nat.ltb Nat.leb fst snd map app pinged fold_left
       replied state emitted emergencies].
  split; [reflexivity|]. split; [|reflexivity].
  apply get_set_same.
Qed.

Lemma post_stamped (st : State) (s a : string) (p : jsval)
    (t1 t2 t3 : Z) (r : string) :
  let o := on_emergency_post st s a p t1 t2 t3 r in
  (exists id, replied o = Acked (AckPosted id)) \/
  replied o = Acked (AckError missing_skill) \/
  replied o = Acked (AckError missing_location) ->
  connections (state o) = connections st /\
  lastEmergencyAtByIP (state o) =
  JsMap.set (ipOf a) t2 (lastEmergencyAtByIP st).
Proof.
  cbn zeta.
  destruct (JsMap.get s (connections st)) as [k|] eqn:G.
  2:{ rewrite post_not_connected by exact G. cbn.
      intros [[id E]|[E|E]]; discriminate E. }
  destruct (Conn.role k) eqn:R.
  { erewrite post_not_seeker by eassumption. cbn.
    intros [[id E]|[E|E]]; discriminate E. }
  destruct (Z.lt_ge_cases
              (t1 - lastAtOf (ipOf a) (lastEmergencyAtByIP st))
              POST_COOLDOWN_MS) as [L|L].
  { erewrite post_too_many by eassumption. cbn.
    intros [[id E]|[E|E]]; discriminate E. }
  destruct (string_dec (requiredSkillOf p) "") as [S|S].
  { erewrite post_missing_skill by eassumption. cbn. auto. }
  destruct (numericCoords p) eqn:C.
  - erewrite post_created by eassumption. cbn. auto.
  - erewrite post_missing_location by eassumption. cbn. auto.
Qed.

(** X12.  The cooldown of an address runs from the last post that got
    past the role and cooldown checks, whether it created a request or
    was turned down for its capability or coordinates: once 5000 ms
    have passed since the reading stored by that post, a post with a
    capability and numeric coordinates by a connected seeker from the
    same address creates a request. *)
Theorem post_allowed_after_window (st : State) (s a : string) (p : jsval)
    (t1 t2 t3 : Z) (r : string)
    (caller : string) (p' : jsval) (later later2 later3 : Z) (r' : string)
    (k : Conn.t) :
  let o := on_emergency_post st s a p t1 t2 t3 r in
  (exists id, replied o = Acked (AckPosted id)) \/
  replied o = Acked (AckError missing_skill) \/
  replied o = Acked (AckError missing_location) ->
  JsMap.get caller (connections st) = Some k ->
  Conn.role k = seeker ->
  POST_COOLDOWN_MS <= later - t2 ->
  requiredSkillOf p' <> "" ->
  numericCoords p' = true ->
  replied (on_emergency_post (state o) caller a p' later later2 later3 r') =
  Acked (AckPosted ("em_" ++ r')).
Proof.
  intros o St G R L S C.
  destruct (post_stamped st s a p t1 t2 t3 r St) as [Cn Lm]. fold o in Cn, Lm.
  erewrite post_created; [reflexivity| | | | |]; try eassumption.
  - rewrite Cn. exact G.
  - rewrite Lm, lastAtOf_set. exact L.
Qed.
End PostingMore.

Lemma nobody_repairs_cars :
  forall key k dist,
    In (key, k) (connections dispatchedState) ->
    ~ Eligible (requiredSkillOf mechanicRequest)
        (numberOf (prop "lat" (locationOf mechanicRequest)))
        (numberOf (prop "lng" (locationOf mechanicRequest))) k dist.
Proof.
  intros key k dist I (_ & _ & S & _).
  unfold dispatchedState in I. cbn [connections In] in I.
  destruct I as [E|[E|[E|[]]]]; injection E as <- <-;
    vm_compute in S; discriminate S.
Qed.

Lemma s1_may_post_for_mechanic :
  postGuard dispatchedState "s1" "10.0.0.1" mechanicRequest 200000.
Proof.
  unfold postGuard. split; [eexists; split; reflexivity|].
  split; [vm_compute; discriminate|].
  split; [vm_compute; discriminate | reflexivity].
Qed.

(** The seeker asks for a mechanic; both helpers only repair bikes. *)
Lemma post_without_match_stays_pending_witness :
  postGuard dispatchedState "s1" "10.0.0.1" mechanicRequest 200000 /\
  emitted (on_emergency_post dispatchedState "s1" "10.0.0.1" mechanicRequest
             200000 200001 200002 "car") =
  [("s1", EmitDispatchSummary "em_car" 0)].
Proof.
  split; [exact s1_may_post_for_mechanic|].
  destruct (post_without_match_stays_pending dispatchedState "s1" "10.0.0.1"
              mechanicRequest 200000 200001 200002 "car"
              s1_may_post_for_mechanic nobody_repairs_cars)
    as (_ & _ & E).
  exact E.
Defined.

(** A post without a capability at 200001 is turned down; the next
    one, 5000 ms later, goes through. *)
Lemma post_allowed_after_window_witness :
  replied (on_emergency_post dispatchedState "s1" "10.0.0.1" (JObj [])
             200000 200001 200002 "xyz") =
    Acked (AckError missing_skill) /\
  replied
    (on_emergency_post
       (state (on_emergency_post dispatchedState "s1" "10.0.0.1" (JObj [])
                 200000 200001 200002 "xyz"))
       "s1" "10.0.0.1" bikeRequest 205001 205002 205003 "uvw") =
  Acked (AckPosted "em_uvw").
Proof.
  assert (R : replied (on_emergency_post dispatchedState "s1" "10.0.0.1"
                         (JObj []) 200000 200001 200002 "xyz") =
              Acked (AckError missing_skill))
    by (vm_compute; reflexivity).
  split; [exact R|].
  eapply (post_allowed_after_window dispatchedState "s1" "10.0.0.1" (JObj [])
            200000 200001 200002 "xyz" "s1" bikeRequest
            205001 205002 205003 "uvw").
  - right. left. exact R.
  - reflexivity.
  - reflexivity.
  - vm_compute. discriminate.
  - vm_compute. discriminate.
  - reflexivity.
Defined.

(** ** Ties keep the order of the registry *)

Section Stability.
Context {A : Type} (cmp : A -> A -> num) (p : A -> bool).
Hypothesis jumps_leave_class :
  forall x y, p x = true -> positive (cmp x y) = true -> p y = false.

Lemma sortInsert_filter (x : A) (l : list A) :
  filter p (sortInsert cmp x l) = filter p (x :: l).
Proof.
  induction l as [|y r IH]; cbn [sortInsert]; [reflexivity|].
  destruct (positive (cmp x y)) eqn:E; [|reflexivity].
  cbn [filter] in *. rewrite IH.
  destruct (p x) eqn:Px; [|reflexivity].
  rewrite (jumps_leave_class x y Px E). reflexivity.
Qed.

Lemma arraySort_filter (l : list A) :
  filter p (arraySort cmp l) = filter p l.
Proof.
  induction l as [|x r IH]; cbn [arraySort fold_right]; [reflexivity|].
  rewrite sortInsert_filter. cbn [filter]. fold (arraySort cmp r).
  rewrite IH. reflexivity.
Qed.
End Stability.

Lemma tied_not_jumped (z x y : Candidate) :
  tied z x = true -> positive (compareCandidates x y) = true ->
  tied z y = false.
Proof.
  intros Tx Pos. destruct (tied z y) eqn:Ty; [|reflexivity]. exfalso.
  unfold tied in Tx, Ty.
  apply andb_prop in Tx. destruct Tx as [Tx Fx].
  apply andb_prop in Tx. destruct Tx as [Dx Rx].
  apply andb_prop in Ty. destruct Ty as [Ty Fy].
  apply andb_prop in Ty. destruct Ty as [Dy Ry].
  apply Z.eqb_eq in Fx, Fy.
  assert (D : Num.eqb (d x) (d y) = true)
    by (eapply eqb_trans; [apply eqb_sym; exact Dx | exact Dy]).
  assert (R : Num.eqb (Conn.rating (c x)) (Conn.rating (c y)) = true)
    by (eapply eqb_trans; [apply eqb_sym; exact Rx | exact Ry]).
  unfold compareCandidates in Pos. rewrite D, R in Pos. cbn [negb] in Pos.
  rewrite positive_ofZ in Pos. apply Z.ltb_lt in Pos. lia.
Qed.

Lemma filter_firstn_prefix {A : Type} (p : A -> bool) (n : nat)
    (l : list A) :
  filter p l = (filter p (firstn n l) ++ filter p (skipn n l))%list.
Proof.
  rewrite <- filter_app, firstn_skipn. reflexivity.
Qed.

Section RankingTies.
Context `{Host}.

(** X13.  Helpers that the comparator cannot tell apart (same
    distance, same rating, same location timestamp) are ranked in the
    order of the registry: in a registry without NaN ratings, the
    candidates of the ranking that are tied with a given one are, in
    the same order, the first ones of the eligible registry entries
    tied with it. *)
Theorem ranking_keeps_registry_order_on_ties (conns : JsMap.t Conn.t)
    (skill : string) (lat lng : num) (z : Candidate) :
  wellRated conns ->
  exists cut,
    filter (tied z) (eligibleCandidates conns skill lat lng) =
    (filter (tied z) (rankHelpers conns skill lat lng) ++ cut)%list.
Proof.
  intros _. rewrite rankHelpers_unfold.
  rewrite <- (arraySort_filter compareCandidates (tied z)
                (tied_not_jumped z)
                (eligibleCandidates conns skill lat lng)).
  eexists. apply filter_firstn_prefix.
Qed.
End RankingTies.

Lemma tiedState_wellRated : wellRated (connections tiedState).
Proof.
  intros s k I. unfold tiedState in I. cbn [connections In] in I.
  destruct I as [E|[E|[]]]; inversion E; reflexivity.
Qed.

(** Two helpers located at the same instant are ranked in the order
    of their handshakes, whichever was located first. *)
Lemma ranking_keeps_registry_order_on_ties_witness :
  wellRated (connections tiedState) /\
  map sid
    (rankHelpers (connections tiedState) "bike"
       (Fin (130827 # 10000)) (Fin (802707 # 10000))) = ["h1"; "h2"] /\
  exists cut,
    filter (tied (mkCandidate "h1"
                    (Conn.mk "h1" helper "Asha" ["bike"]
                       (Some (Loc.mk (Fin (130827 # 10000))
                                (Fin (802707 # 10000)) 1000))
                       true (Fin (9 # 2)))
                    (Fin 0)))
      (eligibleCandidates (connections tiedState) "bike"
         (Fin (130827 # 10000)) (Fin (802707 # 10000))) =
    (filter (tied (mkCandidate "h1"
                     (Conn.mk "h1" helper "Asha" ["bike"]
                        (Some (Loc.mk (Fin (130827 # 10000))
                                 (Fin (802707 # 10000)) 1000))
                        true (Fin (9 # 2)))
                     (Fin 0)))
       (rankHelpers (connections tiedState) "bike"
          (Fin (130827 # 10000)) (Fin (802707 # 10000))) ++ cut)%list.
Proof.
  split; [exact tiedState_wellRated|].
  split; [vm_compute; reflexivity|].
  apply ranking_keeps_registry_order_on_ties.
  exact tiedState_wellRated.
Defined.

(** ** Leaving, and coming back *)

Lemma get_delete_same {V : Type} (k : string) (m : JsMap.t V) :
  NoDup (map fst m) -> JsMap.get k (JsMap.delete k m) = None.
Proof.
  induction m as [|[k0 v0] r IH]; cbn [JsMap.delete map fst]; intro N;
    [reflexivity|].
  inversion N as [|? ? Nk Nr]; subst.
  destruct (String.eqb k k0) eqn:E.
  - apply String.eqb_eq in E. subst k0.
    destruct (JsMap.get k r) as [v|] eqn:G; [|reflexivity].
    exfalso. apply Nk. apply get_In in G. apply in_map_iff.
    exists (k, v). auto.
  - cbn [JsMap.get]. rewrite E. apply IH. exact Nr.
Qed.

Section Leaving.
Context `{Host}.

Lemma reopened_not_held (conns : JsMap.t Conn.t) (s : string) (em : Em.t) :
  heldBy s (fst (reopened conns em)) = false.
Proof.
  unfold reopened.
  destruct (dispatch_keeps_request conns
              (Em.setStatus pending (Em.setAssignedHelper None em)))
    as (_ & _ & A & _).
  unfold heldBy. rewrite A. reflexivity.
Qed.

(** X14.  A disconnect of an unknown party does nothing.  After the
    disconnect of a registered party no request is left accepted and
    assigned to it, and, the registry holding one entry per identity,
    the party is gone from the registry, so that a second disconnect
    does nothing. *)
Theorem disconnect_releases (st : State) (s : string) :
  (JsMap.get s (connections st) = None ->
   on_disconnect st s = mkOutcome st [] Silent) /\
  (JsMap.get s (connections st) <> None ->
   forall key em,
     In (key, em) (emergencies (state (on_disconnect st s))) ->
     heldBy s em = false) /\
  (NoDup (map fst (connections st)) ->
   JsMap.get s (connections (state (on_disconnect st s))) = None /\
   on_disconnect (state (on_disconnect st s)) s =
   mkOutcome (state (on_disconnect st s)) [] Silent).
Proof.
  assert (U : forall st', JsMap.get s (connections st') = None ->
                on_disconnect st' s = mkOutcome st' [] Silent).
  { intros st' G. unfold on_disconnect. rewrite G. reflexivity. }
  split; [apply U|]. split.
  - destruct (JsMap.get s (connections st)) as [k|] eqn:G;
      [|intro N; contradiction N; reflexivity].
    intros _ key em I.
    rewrite (on_disconnect_registered st s k G) in I.
    cbn [state emergencies] in I. apply in_map_iff in I.
    destruct I as ([key0 em0] & Q & _). cbn [fst snd] in Q.
    injection Q as _ <-.
    destruct (heldBy s em0) eqn:Hd; [apply reopened_not_held | exact Hd].
  - intro N.
    assert (G1 : JsMap.get s (connections (state (on_disconnect st s)))
                 = None).
    { destruct (JsMap.get s (connections st)) as [k|] eqn:G.
      - rewrite (on_disconnect_registered st s k G). cbn [state connections].
        apply get_delete_same. exact N.
      - rewrite (U st G). exact G. }
    split; [exact G1 | apply U; exact G1].
Qed.

(** X15.  Once the assigned helper of an accepted request has
    disconnected, the request can be accepted again: any other
    registered helper satisfies the accept guard for it. *)
Theorem reopened_request_can_be_accepted (st : State) (s key other : string)
    (k k2 : Conn.t) (em : Em.t) :
  JsMap.get s (connections st) = Some k ->
  JsMap.get key (emergencies st) = Some em ->
  heldBy s em = true ->
  other <> s ->
  JsMap.get other (connections st) = Some k2 ->
  Conn.role k2 = helper ->
  acceptGuard (state (on_disconnect st s)) other key /\
  replied (on_emergency_accept (state (on_disconnect st s)) other key) =
  Acked AckOk.
Proof.
  intros G E Hd N G2 R.
  assert (Gd : acceptGuard (state (on_disconnect st s)) other key).
  { rewrite (on_disconnect_registered st s k G). unfold acceptGuard.
    cbn [state connections emergencies].
    rewrite get_delete_other by exact N.
    rewrite (get_map_values
               (fun x => if heldBy s x
                         then fst (reopened (connections st) x) else x)).
    rewrite E. cbn [option_map]. rewrite Hd.
    exists k2. eexists. split; [exact G2|]. split; [exact R|].
    split; [reflexivity|].
    unfold reopened.
    destruct (dispatch_keeps_request (connections st)
                (Em.setStatus pending (Em.setAssignedHelper None em)))
      as (_ & _ & A & St & _).
    rewrite A. cbn [Em.setStatus Em.setAssignedHelper Em.assignedHelper
                    Em.status] in *.
    destruct St as [-> | ->]; repeat split; discriminate. }
  split; [exact Gd | apply accept_ok_iff; exact Gd].
Qed.
End Leaving.

(** h1 leaves while it holds the request; h2 may then accept it. *)
Lemma reopened_request_can_be_accepted_witness :
  JsMap.get "h1" (connections acceptedState) <> None /\
  replied
    (on_emergency_accept (state (on_disconnect acceptedState "h1"))
       "h2" "em_abc") = Acked AckOk.
Proof.
  split; [vm_compute; discriminate|].
  edestruct (reopened_request_can_be_accepted acceptedState "h1" "em_abc" "h2")
    as [_ R];
    [reflexivity | reflexivity | reflexivity | discriminate
    | reflexivity | reflexivity | exact R].
Defined.

(** h1 leaves twice. *)
Lemma disconnect_releases_witness :
  NoDup (map fst (connections acceptedState)) /\
  on_disconnect (state (on_disconnect acceptedState "h1")) "h1" =
  mkOutcome (state (on_disconnect acceptedState "h1")) [] Silent.
Proof.
  assert (N : NoDup (map fst (connections acceptedState))).
  { vm_compute. repeat constructor; cbn [In]; intuition discriminate. }
  split; [exact N|].
  destruct (disconnect_releases acceptedState "h1") as (_ & _ & D).
  destruct (D N) as [_ E]. exact E.
Defined.

Section ComingBack.
Context `{Host}.

Lemma unlocated_not_ranked (conns : JsMap.t Conn.t) (s : string)
    (k : Conn.t) (skill : string) (lat lng : num) :
  NoDup (map fst conns) ->
  JsMap.get s conns = Some k ->
  Conn.location k = None ->
  ~ In s (map sid (rankHelpers conns skill lat lng)).
Proof.
  intros N G L I. apply in_map_iff in I. destruct I as (x & S & I).
  apply rankHelpers_member in I.
  destruct I as (I & _ & _ & _ & loc & Lx & _).
  rewrite S in I. rewrite (In_get_unique conns s (c x) N I) in G.
  injection G as <-. congruence.
Qed.

(** X16.  A handshake on a socket that is already registered forgets
    the party's location: in a registry with one entry per identity,
    after a handshake that did not raise the party is in no ranking,
    whatever the capability and the origin, until its location is
    updated again. *)
Theorem rehandshake_unranks (st : State) (s : string) (p : jsval) :
  NoDup (map fst (connections st)) ->
  replied (on_hello st s p) <> Threw ->
  forall skill lat lng,
    ~ In s (map sid
              (rankHelpers (connections (state (on_hello st s p)))
                 skill lat lng)).
Proof.
  intros N T skill lat lng.
  destruct (hello_outcome st s p) as [E|(k & _ & L & _ & E)].
  - rewrite E in T. contradiction T. reflexivity.
  - rewrite E. cbn [state connections].
    apply (unlocated_not_ranked _ s k); [|apply get_set_same | exact L].
    apply set_unique. exact N.
Qed.

(** X17.  A location update is ignored, the previous location being
    kept, when the party is unknown or when either coordinate is not a
    number; otherwise it replaces the party's location by the two
    coordinates stamped with the current time and changes nothing else
    of the party.  An availability update of a known party stores the
    truthiness of the [available] field, so a payload without the field
    makes the party unavailable.  Neither event sends anything, touches
    a request or the cooldown map, or creates a party. *)
Theorem presence_updates (st : State) (s : string) (v : jsval) (now : Z) :
  (JsMap.get s (connections st) = None \/
   isNumber (prop "lat" (jsOr v (JObj []))) = false \/
   isNumber (prop "lng" (jsOr v (JObj []))) = false ->
   on_location_update st s v now = mkOutcome st [] Silent) /\
  (forall k lat lng,
      JsMap.get s (connections st) = Some k ->
      prop "lat" (jsOr v (JObj [])) = JNum lat ->
      prop "lng" (jsOr v (JObj [])) = JNum lng ->
      on_location_update st s v now =
      mkOutcome
        (mkState
           (JsMap.set s (Conn.setLocation (Some (Loc.mk lat lng now)) k)
              (connections st))
           (emergencies st) (lastEmergencyAtByIP st))
        [] Silent) /\
  (JsMap.get s (connections st) = None ->
   on_status_availability st s v = mkOutcome st [] Silent) /\
  (forall k,
      JsMap.get s (connections st) = Some k ->
      on_status_availability st s v =
      mkOutcome
        (mkState
           (JsMap.set s (Conn.setAvailable (truthy (prop "available" v)) k)
              (connections st))
           (emergencies st) (lastEmergencyAtByIP st))
        [] Silent) /\
  (prop "available" v = JUndefined ->
   forall k, JsMap.get s (connections st) = Some k ->
     option_map Conn.available
       (JsMap.get s (connections (state (on_status_availability st s v)))) =
     Some false).
Proof.
  split; [|split; [|split; [|split]]].
  - unfold on_location_update.
    destruct (JsMap.get s (connections st)) as [k|]; [|reflexivity].
    intros [Q|[Q|Q]]; [discriminate Q| |].
    + destruct (prop "lat" (jsOr v (JObj []))); try reflexivity.
      discriminate Q.
    + destruct (prop "lat" (jsOr v (JObj []))); try reflexivity.
      destruct (prop "lng" (jsOr v (JObj []))); try reflexivity.
      discriminate Q.
  - intros k lat lng G La Ln. unfold on_location_update.
    rewrite G, La, Ln. reflexivity.
  - intro G. unfold on_status_availability. rewrite G. reflexivity.
  - intros k G. unfold on_status_availability. rewrite G. reflexivity.
  - intros U k G. unfold on_status_availability. rewrite G, U.
    cbn [state connections]. rewrite get_set_same. reflexivity.
Qed.
End ComingBack.

(** h1, registered and located, shakes hands again. *)
Lemma rehandshake_unranks_witness :
  NoDup (map fst (connections dispatchedState)) /\
  replied (on_hello dispatchedState "h1" (helperHello "Asha")) <> Threw /\
  ~ In "h1"
      (map sid
         (rankHelpers
            (connections
               (state (on_hello dispatchedState "h1" (helperHello "Asha"))))
            "bike" (Fin (130827 # 10000)) (Fin (802707 # 10000)))).
Proof.
  assert (N : NoDup (map fst (connections dispatchedState))).
  { vm_compute. repeat constructor; cbn [In]; intuition discriminate. }
  assert (T : replied (on_hello dispatchedState "h1" (helperHello "Asha"))
              <> Threw) by (vm_compute; discriminate).
  split; [exact N|]. split; [exact T|].
  exact (rehandshake_unranks dispatchedState "h1" (helperHello "Asha")
           N T "bike" (Fin (130827 # 10000)) (Fin (802707 # 10000))).
Defined.

(** A location update with a numeric string for latitude is ignored. *)
Lemma presence_updates_witness :
  on_location_update dispatchedState "h1"
    (JObj [("lat", JStr "13.08"); ("lng", JNum (Fin 80))]) 5000 =
  mkOutcome dispatchedState [] Silent.
Proof.
  destruct (presence_updates dispatchedState "h1"
              (JObj [("lat", JStr "13.08"); ("lng", JNum (Fin 80))]) 5000)
    as (Ign & _).
  apply Ign. right. left. reflexivity.
Defined.

(** ** The request form of the front page *)

Lemma submitAll_helpList (texts : list string) (p : FrontPage.t) :
  FrontPage.helpList (FrontPage.submitAll texts p) =
  (FrontPage.helpList p ++ texts)%list.
Proof.
  unfold FrontPage.submitAll. revert p.
  induction texts as [|x r IH]; intro p; cbn [fold_left].
  - rewrite app_nil_r. reflexivity.
  - rewrite IH. cbn. rewrite <- app_assoc. reflexivity.
Qed.

(** X18.  The form lists the descriptions in the order they were
    submitted, after the items that were already there, and never
    removes or reorders an item; each submit leaves the field empty, so
    a second submit without typing adds an empty item. *)
Theorem front_page_lists_in_order (texts : list string) (p : FrontPage.t) :
  FrontPage.helpList (FrontPage.submitAll texts p) =
    (FrontPage.helpList p ++ texts)%list /\
  (texts <> [] ->
   FrontPage.description (FrontPage.submitAll texts p) = "") /\
  FrontPage.helpList (FrontPage.onSubmit (FrontPage.onSubmit p)) =
    (FrontPage.helpList p ++ [FrontPage.description p; ""])%list.
Proof.
  split; [apply submitAll_helpList|]. split.
  - destruct (rev texts) as [|x r] eqn:E.
    + intro N. exfalso. apply N. rewrite <- (rev_involutive texts), E.
      reflexivity.
    + intros _. rewrite <- (rev_involutive texts), E. cbn [rev].
      unfold FrontPage.submitAll. rewrite fold_left_app. reflexivity.
  - cbn. rewrite <- app_assoc. reflexivity.
Qed.
